(** * Scraper_news: a shallow embedding of [scraper.py]

    The scraper walks two news sites (tsn.ua, fetched with plain HTTP, and
    ukr.net, rendered through a headless browser), collects categories and
    articles as Python dictionaries, stores them in two MongoDB collections
    and downloads images to a local directory.

    The embedding keeps the program's shape: every method of [Scraper] is a
    computation in a state-and-exception monad over the fields of the
    object; Python dictionaries live in a store and are passed by
    reference; the network, the browser, the HTML parser and the database
    server are oracles gathered in a [World]. *)

From Stdlib Require Import ZArith Ascii String.
From stdpp Require Import base option list strings gmap.

Local Open Scope Z_scope.

(** ** Python string operations used by the scraper *)

Module Str.

(** [s.startswith(p)] *)
Definition startswith (s p : string) : bool := String.prefix p s.

(** [s.endswith(p)] *)
Definition endswith (s p : string) : bool :=
  let n := String.length s in
  let m := String.length p in
  if (m <=? n)%nat then String.eqb (String.substring (n - m) m s) p else false.

(** [s[k:]] *)
Definition drop (k : nat) (s : string) : string :=
  String.substring k (String.length s - k) s.

(** [p in s] *)
Definition contains (p s : string) : bool :=
  match String.index 0 p s with Some _ => true | None => false end.

(** [s.split(sep)] for a one-character separator: never empty. *)
Fixpoint split (sep : ascii) (s : string) : list string :=
  match s with
  | EmptyString => [EmptyString]
  | String c r =>
      if Ascii.eqb c sep then EmptyString :: split sep r
      else match split sep r with
           | x :: xs => String c x :: xs
           | [] => [String c EmptyString]
           end
  end.

(** [sep.join(parts)] *)
Fixpoint join (sep : string) (parts : list string) : string :=
  match parts with
  | [] => EmptyString
  | [x] => x
  | x :: rest => x +:+ sep +:+ join sep rest
  end.

(** [bytes.decode('utf-8')]: the text is kept in its UTF-8 encoding, so
    decoding checks that the bytes are well formed (RFC 3629) and fails
    with UnicodeDecodeError otherwise. *)
Definition cont (c : ascii) : bool :=
  let n := nat_of_ascii c in ((128 <=? n) && (n <=? 191))%nat.

Definition between (lo hi : nat) (c : ascii) : bool :=
  let n := nat_of_ascii c in ((lo <=? n) && (n <=? hi))%nat.

Fixpoint utf8_valid (fuel : nat) (s : string) : bool :=
  match fuel with
  | O => match s with EmptyString => true | _ => false end
  | S fuel =>
      match s with
      | EmptyString => true
      | String a r =>
          if between 0 127 a then utf8_valid fuel r
          else if between 194 223 a then
            match r with
            | String b r1 => cont b && utf8_valid fuel r1
            | _ => false
            end
          else if between 224 239 a then
            match r with
            | String b (String c r2) =>
                (if between 224 224 a then between 160 191 b
                 else if between 237 237 a then between 128 159 b
                 else cont b)
                && cont c && utf8_valid fuel r2
            | _ => false
            end
          else if between 240 244 a then
            match r with
            | String b (String c (String d r3)) =>
                (if between 240 240 a then between 144 191 b
                 else if between 244 244 a then between 128 143 b
                 else cont b)
                && cont c && cont d && utf8_valid fuel r3
            | _ => false
            end
          else false
      end
  end.

Definition decode_utf8 (s : string) : option string :=
  if utf8_valid (String.length s) s then Some s else None.

End Str.

(** ** Parsed pages

    BeautifulSoup and lxml are libraries; a parsed page is represented by
    the answers it gives to the queries the scraper makes. *)

(** An element of [tag.contents]: a text node, or a nested tag.  bs4
    resolves an unknown attribute of a tag, such as [strip], to a search
    for a child tag of that name, so calling it raises TypeError unless
    such a child exists ([strip_child]), in which case the call is a
    [find_all] and returns a ResultSet. *)
Inductive node :=
  | NavigableString (s : string)
  | ChildTag (strip_child : bool).

Record tag := {
  href : option string;                (* item.attrs.get('href') *)
  get_text : string;                   (* item.get_text() *)
  contents : list node;                (* item.contents *)
  find_img : option (option string)    (* item.find('img'), then .get('src') *)
}.

(** The [figure] found on an article page.  [fig_startswith] is the outcome
    of [article_image.startswith((..))] on that tag: [None] when bs4 finds
    no child tag called [startswith] (the call raises TypeError), [Some b]
    when it does and the resulting ResultSet has truth value [b]. *)
Record figure := {
  fig_startswith : option bool;
  fig_find_img : option (option string)
}.

Record soup := {
  select : string -> list tag;                  (* soup.select(css) *)
  find_figure : option figure;                  (* soup.find('figure', class_='js-lightgallery') *)
  find_all_a : string -> list tag               (* soup.find_all('a', text=re.compile(p)) *)
}.

(** ** Python values, dictionaries and the object store *)

Inductive value :=
  | VNone
  | VStr (s : string)
  | VTag                                  (* a bs4 Tag kept as a value *)
  | VResultSet
  | VObjectId (n : nat)
  | VList (l : list (option string)).   (* a list of str or None *)

Abbreviation dict := (gmap string value).
Abbreviation loc := nat.

Inductive exn :=
  | SystemExit            (* sys.exit(1) *)
  | RequestException      (* requests: no connection, bad URL, ... *)
  | WebDriverException
  | AttributeError
  | TypeError
  | IndexError
  | KeyError
  | UnboundLocalError
  | OSError
  | ReError               (* re.error *)
  | InvalidDocument       (* bson: a value that cannot be encoded *)
  | UnicodeDecodeError.

Inductive outcome (A : Type) :=
  | Ok (a : A)
  | Raise (e : exn).
Arguments Ok {A} a.
Arguments Raise {A} e.

(** What leaves the process, in order. *)
Inductive event :=
  | EvHttpGet (url : string) (ok : bool)
  | EvImageGet (url : string) (ok : bool)
  | EvDriverGet (sid : nat) (url : string) (ok : bool)
  | EvDriverInit (sid : nat)
  | EvMongo (ok : bool).

Record session := { sid : nat; page_source : string }.

Inductive http_reply :=
  | HttpOk (text : string)
  | HttpStatusError              (* raise_for_status() raises HTTPError *)
  | HttpNoConnection.            (* requests.get itself raises *)

(** The environment.  The first argument of each oracle is the number of
    events so far, so that a site may answer differently over time. *)
Record World := {
  requests_get : nat -> string -> http_reply;
  requests_get_stream : nat -> string -> option string;   (* image bytes *)
  driver_get : nat -> nat -> string -> option string;     (* session, url *)
  fresh_page_source : string;          (* what a just started browser shows *)
  BeautifulSoup : string -> soup;
  re_compile : string -> bool;         (* is the pattern well formed *)
  mongo_up : nat -> bool;
  lower : string -> string;            (* str.lower(), Unicode case tables *)
  strip : string -> string             (* str.strip(), Unicode white space *)
}.

(** The mutable fields of a [Scraper] object, the store of dictionaries it
    created, and the outside state it writes to. *)
Record Scraper := {
  driver : session;
  next_sid : nat;
  heap : list dict;
  next_oid : nat;
  category_coll : list dict;
  articles_coll : list dict;
  image_storage : gmap string string;
  log : list (string * string);
  trace : list event
}.

Inductive coll := Categories | Articles.

Definition set_driver (d : session) (s : Scraper) : Scraper :=
  {| driver := d; next_sid := next_sid s; heap := heap s; next_oid := next_oid s;
     category_coll := category_coll s; articles_coll := articles_coll s;
     image_storage := image_storage s; log := log s; trace := trace s |}.

Definition set_next_sid (n : nat) (s : Scraper) : Scraper :=
  {| driver := driver s; next_sid := n; heap := heap s; next_oid := next_oid s;
     category_coll := category_coll s; articles_coll := articles_coll s;
     image_storage := image_storage s; log := log s; trace := trace s |}.

Definition set_heap (h : list dict) (s : Scraper) : Scraper :=
  {| driver := driver s; next_sid := next_sid s; heap := h; next_oid := next_oid s;
     category_coll := category_coll s; articles_coll := articles_coll s;
     image_storage := image_storage s; log := log s; trace := trace s |}.

Definition set_next_oid (n : nat) (s : Scraper) : Scraper :=
  {| driver := driver s; next_sid := next_sid s; heap := heap s; next_oid := n;
     category_coll := category_coll s; articles_coll := articles_coll s;
     image_storage := image_storage s; log := log s; trace := trace s |}.

Definition get_coll (c : coll) (s : Scraper) : list dict :=
  match c with Categories => category_coll s | Articles => articles_coll s end.

Definition set_coll (c : coll) (docs : list dict) (s : Scraper) : Scraper :=
  {| driver := driver s; next_sid := next_sid s; heap := heap s; next_oid := next_oid s;
     category_coll := match c with Categories => docs | Articles => category_coll s end;
     articles_coll := match c with Articles => docs | Categories => articles_coll s end;
     image_storage := image_storage s; log := log s; trace := trace s |}.

Definition set_image_storage (f : gmap string string) (s : Scraper) : Scraper :=
  {| driver := driver s; next_sid := next_sid s; heap := heap s; next_oid := next_oid s;
     category_coll := category_coll s; articles_coll := articles_coll s;
     image_storage := f; log := log s; trace := trace s |}.

Definition add_log (e : string * string) (s : Scraper) : Scraper :=
  {| driver := driver s; next_sid := next_sid s; heap := heap s; next_oid := next_oid s;
     category_coll := category_coll s; articles_coll := articles_coll s;
     image_storage := image_storage s; log := log s ++ [e]; trace := trace s |}.

Definition emit (e : event) (s : Scraper) : Scraper :=
  {| driver := driver s; next_sid := next_sid s; heap := heap s; next_oid := next_oid s;
     category_coll := category_coll s; articles_coll := articles_coll s;
     image_storage := image_storage s; log := log s; trace := trace s ++ [e] |}.

Definition clock (s : Scraper) : nat := length (trace s).

(** ** The monad: state of the object, and Python exceptions *)

Definition M (A : Type) : Type := Scraper -> outcome A * Scraper.

#[export] Instance M_ret : MRet M := fun A a s => (Ok a, s).
#[export] Instance M_bind : MBind M := fun A B f m s =>
  match m s with
  | (Ok a, s') => f a s'
  | (Raise e, s') => (Raise e, s')
  end.

Definition raise {A} (e : exn) : M A := fun s => (Raise e, s).
Definition gets {A} (f : Scraper -> A) : M A := fun s => (Ok (f s), s).
Definition modify (f : Scraper -> Scraper) : M unit := fun s => (Ok tt, f s).

(** [try: body except E: handler] for a single exception class. *)
Definition try_except {A} (body : M A) (caught : exn -> bool) (handler : M A) : M A :=
  fun s =>
    match body s with
    | (Ok a, s') => (Ok a, s')
    | (Raise e, s') => if caught e then handler s' else (Raise e, s')
    end.

(** *** Dictionaries in the store *)

(** [{}] *)
Definition new_dict : M loc :=
  fun s => (Ok (length (heap s)), set_heap (heap s ++ [∅]) s).

(** [d[k] = v] *)
Definition setitem (d : loc) (k : string) (v : value) : M unit :=
  modify (fun s => set_heap (alter (insert k v) d (heap s)) s).

Definition deref (h : list dict) (d : loc) : dict := default ∅ (h !! d).

(** [d[k]] *)
Definition getitem (d : loc) (k : string) : M value :=
  fun s => match deref (heap s) d !! k with
           | Some v => (Ok v, s)
           | None => (Raise KeyError, s)
           end.

(** [k in d] *)
Definition has_key (d : loc) (k : string) : M bool :=
  gets (fun s => bool_decide (is_Some (deref (heap s) d !! k))).

(** [d[k].append(v)] *)
Definition append_item (d : loc) (k : string) (v : option string) : M unit :=
  fun s => match deref (heap s) d !! k with
           | Some (VList l) =>
               (Ok tt, set_heap (alter (insert k (VList (l ++ [v]))) d (heap s)) s)
           | Some _ => (Raise AttributeError, s)
           | None => (Raise KeyError, s)
           end.

(** A dictionary field used where the code needs a [str]. *)
Definition as_str (v : value) : M string :=
  match v with
  | VStr x => mret x
  | _ => raise TypeError
  end.

(** ** The methods of [Scraper] *)

(* logging statuses *)
Definition IN_PROCESS := "IN_PROCESS".
Definition SUCCESS := "SUCCESS".
Definition FAILED := "FAILED".

(** [NewsProvider(name, url)] *)
Record NewsProvider := { name : string; url : string }.

Definition tsn_resource := {| name := "tsn.ua"; url := "https://tsn.ua/" |}.
Definition ukrnet_resource := {| name := "ukr.net"; url := "https://www.ukr.net/" |}.

(** What [search_by_category] returns: [False], or the list of articles. *)
Inductive search_result :=
  | RFalse
  | RArticles (articles : list loc).

Section Methods.

Variable w : World.
(** [self.limit] is assigned in [__init__] and never written again. *)
Variable limit : Z.

Definition logger_info (status msg : string) : M unit :=
  modify (add_log (status, msg)).
Definition logger_exception (status msg : string) : M unit :=
  modify (add_log (status, msg)).

(** [webdriver.Chrome(...)]: a fresh browser session. *)
Definition init_webdriver : M session :=
  fun s =>
    let d := {| sid := next_sid s; page_source := fresh_page_source w |} in
    (Ok d, emit (EvDriverInit (next_sid s)) (set_next_sid (S (next_sid s)) s)).

(** pymongo adds an [_id] to a document that has none, mutating the
    caller's dictionary. *)
Definition assign_id (d : loc) : M unit :=
  fun s =>
    match deref (heap s) d !! "_id" with
    | Some _ => (Ok tt, s)
    | None =>
        (Ok tt, set_next_oid (S (next_oid s))
                  (set_heap (alter (insert "_id" (VObjectId (next_oid s))) d (heap s)) s))
    end.

Definition same_id (a b : dict) : bool :=
  match a !! "_id", b !! "_id" with
  | Some (VObjectId x), Some (VObjectId y) => Nat.eqb x y
  | _, _ => false
  end.

(** bson encodes str (and its subclasses), None, ObjectId and lists of
    those; a bs4 Tag or ResultSet is refused with InvalidDocument, which
    is not a PyMongoError. *)
Definition encodable (v : value) : bool :=
  match v with VTag | VResultSet => false | _ => true end.

(** The server side of one insertion: refused when the server cannot be
    reached or when the collection already holds the [_id]. *)
Definition mongo_write (d : loc) (c : coll) : M bool :=
  fun s =>
    let doc := deref (heap s) d in
    if negb (forallb (fun kv => encodable kv.2) (map_to_list doc))
    then (Raise InvalidDocument, s)
    else
      let up := mongo_up w (clock s) in
      let dup := existsb (same_id doc) (get_coll c s) in
      if up && negb dup
      then (Ok true, emit (EvMongo true) (set_coll c (get_coll c s ++ [doc]) s))
      else (Ok false, emit (EvMongo false) s).

Definition insert_one_to_collection (data : loc) (c : coll) : M unit :=
  assign_id data ;;
  ok ← mongo_write data c ;
  if ok : bool
  then logger_info IN_PROCESS "INSERTING DATA TO DB"
  else logger_exception FAILED "ERROR WHEN INSERTING DATA".   (* except PyMongoError *)

Fixpoint assign_ids (data : list loc) : M unit :=
  match data with
  | [] => mret tt
  | d :: rest => assign_id d ;; assign_ids rest
  end.

(** An ordered bulk write: documents go in one by one until one is
    refused. *)
Fixpoint bulk_write (data : list loc) (c : coll) : M bool :=
  match data with
  | [] => mret true
  | d :: rest =>
      ok ← mongo_write d c ;
      if ok : bool then bulk_write rest c else mret false
  end.

Definition insert_many_to_collection (data : list loc) (c : coll) : M unit :=
  match data with
  | [] =>                                            (* TypeError, caught *)
      logger_exception FAILED "ERROR WHEN INSERTING DATA"
  | _ =>
      assign_ids data ;;
      ok ← bulk_write data c ;
      if ok : bool
      then logger_info IN_PROCESS "INSERTING MULTIPLE DATA TO DB"
      else logger_exception FAILED "ERROR WHEN INSERTING DATA"
  end.

Definition download_image (image_url : option string) : M unit :=
  match image_url with
  | None => raise AttributeError                     (* None.split *)
  | Some image_url =>
      let local_filename :=
        hd "" (Str.split "?" (List.last (Str.split "/" image_url) "")) in
      fun s =>
        match requests_get_stream w (clock s) image_url with
        | None => (Raise RequestException, emit (EvImageGet image_url false) s)
        | Some bytes =>
            let s := emit (EvImageGet image_url true) s in
            if String.eqb local_filename ""
            then (Raise OSError, s)                  (* open() on the directory *)
            else logger_info IN_PROCESS "DOWNLOADING IMAGE"
                   (set_image_storage (<[local_filename := bytes]> (image_storage s)) s)
        end
  end.

Definition get_request_content (url : string) : M string :=
  fun s =>
    match requests_get w (clock s) url with
    | HttpOk text => (Ok text, emit (EvHttpGet url true) s)
    | HttpStatusError => (Raise SystemExit, emit (EvHttpGet url false) s)
    | HttpNoConnection => (Raise RequestException, emit (EvHttpGet url false) s)
    end.

(** [self.driver.get(url)] *)
Definition driver_navigate (url : string) : M unit :=
  fun s =>
    let d := driver s in
    match driver_get w (clock s) (sid d) url with
    | Some src =>
        (Ok tt, emit (EvDriverGet (sid d) url true)
                  (set_driver {| sid := sid d; page_source := src |} s))
    | None => (Raise WebDriverException, emit (EvDriverGet (sid d) url false) s)
    end.

Definition is_WebDriverException (e : exn) : bool :=
  match e with WebDriverException => true | _ => false end.

Definition get_webdriver_content (url : string) : M string :=
  try_except (driver_navigate url) is_WebDriverException
    (d ← init_webdriver ; modify (set_driver d)) ;;
  page ← gets (fun s => page_source (driver s)) ;
  mret page.

Definition get_page_content (resource_name url : string) : M string :=
  if String.eqb resource_name "tsn.ua"
  then get_request_content url
  else get_webdriver_content url.

Definition parse_page_content (resource_name url : string) : M soup :=
  page_obj ← get_page_content resource_name url ;
  mret (BeautifulSoup w page_obj).

(** [str(x)] for an attribute value *)
Definition str (x : option string) : string :=
  match x with Some x => x | None => "None" end.

(** One turn of the loop over the category anchors; [continue] leaves
    [categories] as it was. *)
Definition gather_item (item : tag) (categories : list loc) : M (list loc) :=
  category ← new_dict ;
  let link := str (href item) in
  if Str.startswith link "javascript" then mret categories
  else
    let link := if negb (Str.startswith link "https:") then "https:" +:+ link else link in
    setitem category "link" (VStr link) ;;
    setitem category "name" (VStr (strip w (get_text item))) ;;
    mret (categories ++ [category]).

Fixpoint gather_loop (all_categories : list tag) (categories : list loc) : M (list loc) :=
  match all_categories with
  | [] => mret categories
  | item :: rest =>
      categories ← gather_item item categories ;
      gather_loop rest categories
  end.

Definition gather_categories (url resource_name selector : string) : M (list loc) :=
  soup ← parse_page_content resource_name url ;
  let all_categories := select soup selector in
  categories ← gather_loop all_categories [] ;
  insert_many_to_collection categories Categories ;;
  mret categories.

Definition tsn_categories : M (list loc) :=
  categories ← gather_categories (url tsn_resource) (name tsn_resource)
                 "ul.c-app-nav-more-list li a" ;
  logger_info IN_PROCESS "PARSING TSN CATEGORIES" ;;
  mret categories.

Definition ukrnet_categories : M (list loc) :=
  categories ← gather_categories (url ukrnet_resource) (name ukrnet_resource)
                 "h2.feed__section--title a" ;
  logger_info IN_PROCESS "PARSING UKR.NET CATEGORIES" ;;
  mret categories.

Definition opt_value (x : option string) : value :=
  match x with Some x => VStr x | None => VNone end.

Definition node_value (n : node) : value :=
  match n with NavigableString x => VStr x | ChildTag _ => VTag end.

(** [link[2:]] for a protocol-relative link *)
Definition ukrnet_link (link : string) : string :=
  if Str.startswith link "//" then Str.drop 2 link else link.

Definition ukrnet_item (category_name : string) (item : tag) : M loc :=
  article ← new_dict ;
  link ← match href item with
         | None => raise AttributeError                (* None.startswith *)
         | Some link => mret (ukrnet_link link)
         end ;
  setitem article "link" (VStr link) ;;
  setitem article "category" (VStr category_name) ;;
  content ← match contents item with
            | [] => raise IndexError
            | c :: _ => mret (node_value c)
            end ;
  setitem article "content" content ;;
  insert_one_to_collection article Articles ;;
  mret article.

Fixpoint ukrnet_loop (category_name : string) (all_articles : list tag)
    (count : Z) (result : list loc) : M (list loc) :=
  match all_articles with
  | [] => mret result
  | item :: rest =>
      if count <=? limit then
        article ← ukrnet_item category_name item ;
        ukrnet_loop category_name rest (count + 1) (result ++ [article])
      else mret result                                 (* break *)
  end.

Definition get_ukrnet_articles (category_name url : string) : M (list loc) :=
  soup ← parse_page_content (name ukrnet_resource) url ;
  let all_articles := select soup "div.im-tl a" in
  result ← ukrnet_loop category_name all_articles 0 [] ;
  logger_info IN_PROCESS "PARSING UKR.NET ARTICLES" ;;
  mret result.

Definition truthy (x : option string) : bool :=
  match x with Some x => negb (String.eqb x "") | None => false end.

(** One listing item of the first pass; [data] is the temporary storage.
    Returns the new [data] and the value left in the local [img_src]. *)
Definition tsn_listing_item (category_name : string) (item : tag)
    (data : list loc) : M (list loc * option string) :=
  article ← new_dict ;
  let link := href item in
  img_src ← match find_img item with
            | None => raise AttributeError             (* None.get *)
            | Some src => mret src
            end ;
  html ← match link with
         | None => raise AttributeError                (* None.endswith *)
         | Some link => mret (Str.endswith link ".html")
         end ;
  if html : bool then
    setitem article "link" (opt_value link) ;;
    (if truthy img_src then
       if negb (Str.startswith (str img_src) "data:image"
                || Str.startswith (str img_src) "javascript")
       then setitem article "img_src" (opt_value img_src) ;;
            download_image img_src
       else mret tt
     else mret tt) ;;
    setitem article "category" (VStr category_name) ;;
    mret (data ++ [article], img_src)
  else mret (data, img_src).

Fixpoint tsn_first_pass (category_name : string) (all_articles : list tag)
    (count : Z) (data : list loc) (img_src : option (option string))
    : M (list loc * option (option string)) :=
  match all_articles with
  | [] => mret (data, img_src)
  | item :: rest =>
      (* retrieve limit amount of articles *)
      if count <=? limit then
        r ← tsn_listing_item category_name item data ;
        tsn_first_pass category_name rest (count + 1) r.1 (Some r.2)
      else mret (data, img_src)                        (* break *)
  end.

(** ["".join(tag.contents)] *)
Fixpoint join_contents (l : list node) : M string :=
  match l with
  | [] => mret ""
  | NavigableString x :: rest => r ← join_contents rest ; mret (x +:+ r)
  | ChildTag _ :: _ => raise TypeError
  end.

(** The locals [header_text] and [img_src] outlive an iteration of the
    second loop; [None] stands for a name not yet bound. *)
Record tsn_locals := {
  header_text : option string;
  img_src : option (option string)
}.

Definition tsn_article (article : loc) (locals : tsn_locals) : M (loc * tsn_locals) :=
  link ← getitem article "link" ;
  link ← as_str link ;
  new_soup ← parse_page_content (name tsn_resource) link ;
  let news_content := select new_soup "div.e-content p" in
  let text_content := map get_text news_content in     (* strip('') strips nothing *)
  let article_text := Str.join " " text_content in
  let news_header := select new_soup "div.c-post-meta h1" in   (* article title *)
  header_text ← match news_header with
                | h :: _ => t ← join_contents (contents h) ; mret (Some t)
                | [] => mret (header_text locals)
                end ;
  let article_image := find_figure new_soup in
  img_src ← match article_image with
             | Some fig =>
                 match fig_startswith fig with
                 | None => raise TypeError
                 | Some true => mret (img_src locals)
                 | Some false =>
                     match fig_find_img fig with
                     | None => raise AttributeError
                     | Some src => download_image src ;; mret (Some src)
                     end
                 end
             | None => mret (img_src locals)
             end ;
  news_chunk ← new_dict ;
  category ← getitem article "category" ;
  setitem news_chunk "category" category ;;
  link ← getitem article "link" ;
  setitem news_chunk "link" link ;;
  title ← match header_text with
          | None => raise UnboundLocalError
          | Some t => mret t
          end ;
  setitem news_chunk "title" (VStr title) ;;
  setitem news_chunk "content" (VStr article_text) ;;
  setitem news_chunk "images" (VList []) ;;
  has_img ← has_key article "img_src" ;
  (if has_img : bool then
     v ← getitem article "img_src" ;
     v ← as_str v ;
     append_item news_chunk "images" (Some v)           (* caption image *)
   else mret tt) ;;
  match article_image with
  | Some _ =>
      match img_src with
      | None => raise UnboundLocalError
      | Some v => append_item news_chunk "images" v     (* article image *)
      end
  | None => mret tt
  end ;;
  insert_one_to_collection news_chunk Articles ;;
  mret (news_chunk, {| header_text := header_text; img_src := img_src |}).

Fixpoint tsn_second_pass (data : list loc) (locals : tsn_locals)
    (result : list loc) : M (list loc) :=
  match data with
  | [] => mret result
  | article :: rest =>
      r ← tsn_article article locals ;
      tsn_second_pass rest r.2 (result ++ [r.1])
  end.

Definition get_tsn_articles (category_name url : string) : M (list loc) :=
  (* first parse through the list of articles *)
  soup ← parse_page_content (name tsn_resource) url ;
  let all_articles := select soup "div.c-entry-embed a.c-post-img-wrap" in
  r ← tsn_first_pass category_name all_articles 0 [] None ;
  (* then iterate over each article *)
  result ← tsn_second_pass r.1 {| header_text := None; img_src := r.2 |} [] ;
  logger_info IN_PROCESS "PARSING TSN ARTICLES" ;;
  mret result.

(** [next(item for item in category_list if item['name'].lower() == category_name)];
    [None] stands for StopIteration. *)
Fixpoint first_named (category_list : list loc) (category_name : string) : M (option loc) :=
  match category_list with
  | [] => mret None
  | item :: rest =>
      n ← getitem item "name" ;
      n ← as_str n ;
      if String.eqb (lower w n) category_name then mret (Some item)
      else first_named rest category_name
  end.

Definition decode (b : string) : M string :=
  match Str.decode_utf8 b with
  | Some t => mret t
  | None => raise UnicodeDecodeError
  end.

Definition search_by_category (category_name : string) : M search_result :=
  category_name ← decode category_name ;
  let category_name := lower w category_name in
  tsn ← tsn_categories ;
  ukrnet ← ukrnet_categories ;
  let category_list := (tsn ++ ukrnet)%list in
  (* check if such category name exists *)
  found ← first_named category_list category_name ;
  match found with
  | None =>
      logger_exception FAILED "STOP ITERATION ERROR" ;;
      mret RFalse
  | Some category_obj =>
      link ← getitem category_obj "link" ;
      link ← as_str link ;
      articles ← (if Str.contains "ukr.net" link
                  then get_ukrnet_articles category_name link
                  else get_tsn_articles category_name link) ;
      logger_info SUCCESS "SEARCH BY CATEGORY" ;;
      mret (RArticles articles)
  end.

(** [item.contents[0].strip()] *)
Definition first_content_stripped (item : tag) : M value :=
  match contents item with
  | [] => raise IndexError
  | NavigableString x :: _ => mret (VStr (strip w x))
  | ChildTag true :: _ => mret VResultSet
  | ChildTag false :: _ => raise TypeError
  end.

(** The inner loop of the text search.  [article] is the one dictionary
    made for the category [link]; every match writes into it. *)
Fixpoint text_matches (article link : loc) (all_articles : list tag)
    (result : list loc) : M (list loc) :=
  match all_articles with
  | [] => mret result
  | item :: rest =>
      setitem article "link" (opt_value (href item)) ;;
      category ← getitem link "name" ;
      setitem article "category" category ;;
      content ← first_content_stripped item ;
      setitem article "content" content ;;
      insert_one_to_collection article Articles ;;
      text_matches article link rest (result ++ [article])
  end.

(** One category link of the text search. *)
Definition search_link (text_searched : string) (link : loc)
    (result : list loc) : M (list loc) :=
  article ← new_dict ;
  (* define which web resource link belongs to *)
  l ← getitem link "link" ;
  l ← as_str l ;
  soup ← (if Str.contains (name tsn_resource) l
          then parse_page_content (name tsn_resource) l
          else parse_page_content (name ukrnet_resource) l) ;
  (* in each category page retrieve articles that contain specific text *)
  (if re_compile w text_searched then mret tt else raise ReError) ;;
  let all_articles := find_all_a soup text_searched in
  text_matches article link all_articles result.

Fixpoint search_links (text_searched : string) (category_links : list loc)
    (result : list loc) : M (list loc) :=
  match category_links with
  | [] => mret result
  | link :: rest =>
      result ← search_link text_searched link result ;
      search_links text_searched rest result
  end.

Definition website_search_by_text (text_searched : string)
    (category_links : list loc) : M (list loc) :=
  text_searched ← decode text_searched ;
  search_links text_searched category_links [].

Definition search_by_text (text : string) : M (list loc) :=
  ukrnet ← ukrnet_categories ;
  tsn ← tsn_categories ;
  let category_links := (ukrnet ++ tsn)%list in
  result ← website_search_by_text text category_links ;
  logger_info SUCCESS "SEARCH BY TEXT" ;;
  mret result.

(** [Scraper(limit)]: both collections are dropped and a browser is
    started; the image directory is whatever it was ([files]). *)
Definition new_Scraper (files : gmap string string) : Scraper :=
  {| driver := {| sid := 0; page_source := fresh_page_source w |};
     next_sid := 1; heap := []; next_oid := 0;
     category_coll := []; articles_coll := [];
     image_storage := files; log := [];
     trace := [EvDriverInit 0] |}.

End Methods.

(** ** Reasoning about runs *)

(** The value of key [k] in the dictionary at [l]. *)
Definition field (h : list dict) (l : loc) (k : string) : option value :=
  deref h l !! k.

(** [h'] has every dictionary of [h], with the same fields; only the key
    [_id], which the database driver adds, may differ. *)
Definition heap_le (h h' : list dict) : Prop :=
  (length h ≤ length h')%nat ∧
  ∀ l k, (l < length h)%nat → k ≠ "_id" → field h' l k = field h l k.

(** The image URLs whose download failed. *)
Definition failed_downloads (t : list event) : list string :=
  omap (λ e, match e with EvImageGet u false => Some u | _ => None end) t.

(** The events of [s'] that are not yet in [s]. *)
Definition new_events (s s' : Scraper) : list event :=
  drop (length (trace s)) (trace s').

Definition is_driver_event (e : event) : bool :=
  match e with EvDriverGet _ _ _ | EvDriverInit _ => true | _ => false end.


(** *** What the loops establish *)

(** The anchors that [gather_categories] does not skip. *)
Definition kept (all_categories : list tag) : list tag :=
  List.filter (λ item, negb (Str.startswith (str (href item)) "javascript")) all_categories.

(** Dictionary [l] of store [h] is the category made from anchor [item]. *)
Definition is_category (w : World) (h : list dict) (item : tag) (l : loc) : Prop :=
  (l < length h)%nat ∧
  field h l "name" = Some (VStr (strip w (get_text item))) ∧
  ∃ link, field h l "link" = Some (VStr link) ∧
    Str.startswith link "https:" = true ∧
    link = (if Str.startswith (str (href item)) "https:"
            then str (href item) else "https:" +:+ str (href item)).

(** A step that neither touches the store nor the collections. *)
Definition same_data (s s' : Scraper) : Prop :=
  heap s' = heap s ∧ category_coll s' = category_coll s ∧
  articles_coll s' = articles_coll s.

(** Collection [new] is [old] followed by copies of dictionaries among
    [data], as they are in store [h]. *)
Definition stored_from (h : list dict) (data : list loc) (old new : list dict) : Prop :=
  ∃ docs, new = (old ++ docs)%list ∧
          Forall (λ doc, ∃ l, l ∈ data ∧ doc = deref h l) docs.

(** ** A small web, for examples

    Two index pages, one listing per site and one article page.  The page
    texts are keys for the parser oracle; [lower] and [strip] are Python's
    on ASCII text. *)

Module Demo.

Definition ascii_lower_char (c : ascii) : ascii :=
  let n := nat_of_ascii c in
  if ((65 <=? n) && (n <=? 90))%nat then ascii_of_nat (n + 32) else c.

Fixpoint ascii_lower (s : string) : string :=
  match s with
  | EmptyString => EmptyString
  | String c r => String (ascii_lower_char c) (ascii_lower r)
  end.

Definition is_space (c : ascii) : bool :=
  let n := nat_of_ascii c in (((9 <=? n) && (n <=? 13)) || (n =? 32))%nat.

Fixpoint lstrip (s : string) : string :=
  match s with
  | String c r => if is_space c then lstrip r else s
  | EmptyString => EmptyString
  end.

Fixpoint rstrip (s : string) : string :=
  match s with
  | EmptyString => EmptyString
  | String c r =>
      let r' := rstrip r in
      if is_space c && String.eqb r' "" then EmptyString else String c r'
  end.

Definition ascii_strip (s : string) : string := rstrip (lstrip s).

Definition anchor (h t : string) : tag :=
  {| href := Some h; get_text := t; contents := [NavigableString t]; find_img := None |}.

Definition paragraph (t : string) : tag :=
  {| href := None; get_text := t; contents := [NavigableString t]; find_img := None |}.

Definition no_soup : soup :=
  {| select := λ _, []; find_figure := None; find_all_a := λ _, [] |}.

Definition tsn_index_html := "<ul class=c-app-nav-more-list>...</ul>".
Definition ukrnet_index_html := "<h2 class=feed__section--title>...</h2>".
Definition tsn_sport_html := "<div class=c-entry-embed>...</div>".
Definition tsn_match_html := "<div class=e-content>...</div>".
Definition ukrnet_main_html := "<div class=im-tl>...</div>".

Definition tsn_index : soup :=
  {| select := λ css,
       if String.eqb css "ul.c-app-nav-more-list li a"
       then [anchor "javascript:void(0)" "More";
             anchor "//tsn.ua/sport" " Sport ";
             anchor "https://tsn.ua/politika" "Politika"]
       else [];
     find_figure := None; find_all_a := λ _, [] |}.

Definition ukrnet_index : soup :=
  {| select := λ css,
       if String.eqb css "h2.feed__section--title a"
       then [anchor "//www.ukr.net/news/main.html" "Main"]
       else [];
     find_figure := None; find_all_a := λ _, [] |}.

Definition match_thumbnail := "https://img.tsn.ua/cached/match.jpg?v=2".

Definition tsn_sport : soup :=
  {| select := λ css,
       if String.eqb css "div.c-entry-embed a.c-post-img-wrap"
       then [{| href := Some "https://tsn.ua/sport/match.html"; get_text := "";
                contents := []; find_img := Some (Some match_thumbnail) |}]
       else [];
     find_figure := None;
     find_all_a := λ p,
       if String.eqb p "Cup"
       then [anchor "https://tsn.ua/sport/cup-draw.html" "Cup draw";
             anchor "https://tsn.ua/sport/cup-final.html" "Cup final "]
       else [] |}.

(** The article page, with or without its [h1]. *)
Definition tsn_match (title : bool) : soup :=
  {| select := λ css,
       if String.eqb css "div.e-content p"
       then [paragraph "First."; paragraph "Second."]
       else if String.eqb css "div.c-post-meta h1"
       then (if title then [paragraph "The match"] else [])
       else [];
     find_figure := None; find_all_a := λ _, [] |}.

(** A listing with [n] protocol-relative article links. *)
Definition ukrnet_main (n : nat) : soup :=
  {| select := λ css,
       if String.eqb css "div.im-tl a"
       then replicate n (anchor "//www.ukr.net/news/details/a.html" "Headline")
       else [];
     find_figure := None; find_all_a := λ _, [] |}.

Definition web (u : string) : option string :=
  if String.eqb u "https://tsn.ua/" then Some tsn_index_html
  else if String.eqb u "https://www.ukr.net/" then Some ukrnet_index_html
  else if String.eqb u "https://tsn.ua/sport" then Some tsn_sport_html
  else if String.eqb u "https://tsn.ua/politika" then Some "<html></html>"
  else if String.eqb u "https://tsn.ua/sport/match.html" then Some tsn_match_html
  else if String.eqb u "https://www.ukr.net/news/main.html" then Some ukrnet_main_html
  else None.

Record setup := {
  title : bool;          (* the article page has its h1 *)
  images_up : bool;      (* the image server answers *)
  browser_up : bool;     (* navigation in session 0 works *)
  listed : nat           (* articles on the ukr.net listing *)
}.

Definition world (c : setup) : World :=
  {| requests_get := λ _ u,
       match web u with Some text => HttpOk text | None => HttpStatusError end;
     requests_get_stream := λ _ u,
       if images_up c then Some "JFIF" else None;
     driver_get := λ _ session u,
       if negb (browser_up c) && Nat.eqb session 0 then None
       else Some (default "<html>404</html>" (web u));
     fresh_page_source := "<html><head></head><body></body></html>";
     BeautifulSoup := λ text,
       if String.eqb text tsn_index_html then tsn_index
       else if String.eqb text ukrnet_index_html then ukrnet_index
       else if String.eqb text tsn_sport_html then tsn_sport
       else if String.eqb text tsn_match_html then tsn_match (title c)
       else if String.eqb text ukrnet_main_html then ukrnet_main (listed c)
       else no_soup;
     re_compile := λ _, true;
     mongo_up := λ _, true;
     lower := ascii_lower;
     strip := ascii_strip |}.

Definition usual : setup :=
  {| title := true; images_up := true; browser_up := true; listed := 11 |}.

(** A scraper just constructed, with an empty image directory. *)
Definition start (c : setup) : Scraper := new_Scraper (world c) ∅.

End Demo.

(** Dictionary [l] of store [h] is the article that [get_ukrnet_articles]
    makes from anchor [item] in category [c]. *)
Definition is_ukrnet_article (h : list dict) (c : string) (item : tag) (l : loc) : Prop :=
  (l < length h)%nat ∧
  field h l "category" = Some (VStr c) ∧
  (∃ link, href item = Some link ∧ field h l "link" = Some (VStr (ukrnet_link link))) ∧
  (∃ c0, head (contents item) = Some c0 ∧ field h l "content" = Some (node_value c0)).

(** An anchor with a link and a text node first, as on a listing page. *)
Definition text_anchor (item : tag) : Prop :=
  is_Some (href item) ∧ ∃ x rest, contents item = NavigableString x :: rest.

(** A link that carries its scheme. *)
Definition scheme_qualified (link : string) : bool :=
  Str.startswith link "https://" || Str.startswith link "http://".

(** The states the two-pass extraction of the example goes through when the
    article page has no title: after the listing is fetched, after the first
    pass, after the article page is fetched. *)
Module DemoRun.
Definition c : Demo.setup :=
  {| Demo.title := false; Demo.images_up := true;
     Demo.browser_up := true; Demo.listed := 11 |}.
Definition w : World := Demo.world c.
Definition listed : Scraper :=
  (get_page_content w "tsn.ua" "https://tsn.ua/sport" (Demo.start c)).2.
Definition first_pass : Scraper :=
  (tsn_first_pass w 10 "sport"
     (select (BeautifulSoup w Demo.tsn_sport_html) "div.c-entry-embed a.c-post-img-wrap")
     0 [] None listed).2.
Definition fetched : Scraper :=
  (get_page_content w "tsn.ua" "https://tsn.ua/sport/match.html" first_pass).2.
End DemoRun.


(** ** Further properties: helpers *)

(** Character [c] occurs in [s]. *)
Fixpoint mem_char (c : ascii) (s : string) : bool :=
  match s with
  | EmptyString => false
  | String a r => Ascii.eqb a c || mem_char c r
  end.

(** The file name [download_image] derives from an image URL. *)
Definition local_filename (image_url : string) : string :=
  hd "" (Str.split "?" (List.last (Str.split "/" image_url) "")).

(** The example web with a database server that cannot be reached. *)
Definition offline (w : World) : World :=
  {| requests_get := requests_get w;
     requests_get_stream := requests_get_stream w;
     driver_get := driver_get w;
     fresh_page_source := fresh_page_source w;
     BeautifulSoup := BeautifulSoup w;
     re_compile := re_compile w;
     mongo_up := λ _, false;
     lower := lower w;
     strip := strip w |}.

(** The articles collection holds a document with the [_id] of dictionary [d]. *)
Definition stored (d : loc) (s : Scraper) : bool :=
  existsb (same_id (deref (heap s) d)) (articles_coll s).

(** Dictionary [d] has no [_id] yet, or one given by the database driver. *)
Definition id_ok (h : list dict) (d : loc) : Prop :=
  field h d "_id" = None ∨ ∃ n, field h d "_id" = Some (VObjectId n).

(** A site whose index has a single anchor, without [href]. *)
Definition bare_anchor : tag :=
  {| href := None; get_text := "Live"; contents := [NavigableString "Live"];
     find_img := None |}.

Definition bare_world : World :=
  let w := Demo.world Demo.usual in
  {| requests_get := requests_get w;
     requests_get_stream := requests_get_stream w;
     driver_get := driver_get w;
     fresh_page_source := fresh_page_source w;
     BeautifulSoup := λ _, {| select := λ _, [bare_anchor]; find_figure := None;
                              find_all_a := λ _, [] |};
     re_compile := re_compile w;
     mongo_up := mongo_up w;
     lower := lower w;
     strip := strip w |}.

(** When [m] ends the process ([sys.exit]), the last thing it did was a
    plain HTTP GET that was answered with an error status. *)
Definition exit_is_http (w : World) {A} (m : M A) : Prop :=
  ∀ s s', m s = (Raise SystemExit, s') →
    ∃ t u, trace s' = (t ++ [EvHttpGet u false])%list ∧
           requests_get w (length t) u = HttpStatusError.

(** ** The Flask views of [app.py]

    The module makes one [Scraper()], with the default limit of 10, and
    serves two forms.  A request is its method and its form fields; a view
    answers with the template it renders and the [content] it passes. *)

Module App.

Inductive http_method := GET | POST.

Record request := { method : http_method; form : gmap string string }.

Inductive response :=
  | Rendered (template : string) (content : option search_result).

Definition limit : Z := 10.

(** [except Exception]: everything but SystemExit. *)
Definition is_Exception (e : exn) : bool :=
  match e with SystemExit => false | _ => true end.

(** [validators.InputRequired()]: the field was sent and is not empty. *)
Definition input_required (f : gmap string string) (field : string) : bool :=
  match f !! field with
  | Some v => negb (String.eqb v "")
  | None => false
  end.

(** [request.form[k]]; a missing key raises BadRequestKeyError, a KeyError. *)
Definition form_item (f : gmap string string) (k : string) : M string :=
  match f !! k with
  | Some v => mret v
  | None => raise KeyError
  end.

Definition is_POST (m : http_method) : bool :=
  match m with POST => true | GET => false end.

Section Views.

Variable w : World.

Definition category_search (req : request) : M response :=
  if is_POST (method req) && input_required (form req) "category" then
    try_except
      (category_choice ← form_item (form req) "category" ;   (* .encode('utf-8') *)
       result ← search_by_category w limit category_choice ;
       mret (Rendered "news_result.html" (Some result)))
      is_Exception
      (mret (Rendered "error.html" None))
  else mret (Rendered "category_search.html" None).

Definition text_search (req : request) : M response :=
  if is_POST (method req) then
    try_except
      (searched_text ← form_item (form req) "token" ;        (* .encode('utf-8') *)
       result ← search_by_text w searched_text ;
       mret (Rendered "news_result.html" (Some (RArticles result))))
      is_Exception
      (mret (Rendered "error.html" None))
  else mret (Rendered "text_search.html" None).

End Views.

End App.

(** ** Two-pass extraction: what the passes establish *)

(** Dictionary [l] is a candidate kept by the first pass for category [c]:
    it has the category and a link that ends in '.html'. *)
Definition is_candidate (h : list dict) (c : string) (l : loc) : Prop :=
  (l < length h)%nat ∧
  field h l "category" = Some (VStr c) ∧
  ∃ link, field h l "link" = Some (VStr link) ∧ Str.endswith link ".html" = true.

(** Dictionary [l] is an article as the second pass builds it. *)
Definition is_tsn_article (h : list dict) (c : string) (l : loc) : Prop :=
  (l < length h)%nat ∧
  field h l "category" = Some (VStr c) ∧
  (∃ link, field h l "link" = Some (VStr link) ∧ Str.endswith link ".html" = true) ∧
  (∃ t, field h l "title" = Some (VStr t)) ∧
  (∃ x, field h l "content" = Some (VStr x)) ∧
  (∃ imgs, field h l "images" = Some (VList imgs) ∧ (length imgs ≤ 2)%nat).

(** An event that is the download of a real image address: not empty, not
    an inline 'data:image' URI, not a 'javascript' pseudo-URL. *)
Definition good_download (e : event) : Prop :=
  match e with
  | EvImageGet u _ =>
      u ≠ "" ∧ Str.startswith u "data:image" = false ∧
      Str.startswith u "javascript" = false
  | _ => False
  end.

(** Every value of the dictionary can be stored. *)
Definition encodable_doc (d : dict) : Prop := map_Forall (λ _ v, encodable v = true) d.
Lemma get_coll_set_heap c h s : get_coll c (set_heap h s) = get_coll c s.
Proof. by destruct c. Qed.
Lemma get_coll_set_next_oid c n s : get_coll c (set_next_oid n s) = get_coll c s.
Proof. by destruct c. Qed.
Lemma get_coll_set_next_sid c n s : get_coll c (set_next_sid n s) = get_coll c s.
Proof. by destruct c. Qed.
Lemma get_coll_set_driver c d s : get_coll c (set_driver d s) = get_coll c s.
Proof. by destruct c. Qed.
Lemma get_coll_set_image_storage c f s : get_coll c (set_image_storage f s) = get_coll c s.
Proof. by destruct c. Qed.
Lemma get_coll_add_log c e s : get_coll c (add_log e s) = get_coll c s.
Proof. by destruct c. Qed.
Lemma get_coll_emit c e s : get_coll c (emit e s) = get_coll c s.
Proof. by destruct c. Qed.
Lemma get_coll_set_coll c docs s : get_coll c (set_coll c docs s) = docs.
Proof. by destruct c. Qed.
Lemma get_coll_set_coll_ne c c' docs s :
  c' ≠ c → get_coll c' (set_coll c docs s) = get_coll c' s.
Proof. by destruct c, c'. Qed.

Create Rewrite HintDb st.
#[local] Hint Rewrite get_coll_set_heap get_coll_set_next_oid get_coll_set_next_sid
  get_coll_set_driver get_coll_set_image_storage get_coll_add_log get_coll_emit
  get_coll_set_coll : st.

Ltac st_simpl :=
  cbn [heap trace category_coll articles_coll driver next_sid next_oid log
       image_storage set_heap set_driver set_next_sid set_next_oid
       set_image_storage add_log emit fst snd] in *;
  autorewrite with st in *.

Lemma bind_run {A B} (m : M A) (f : A → M B) s :
  (m ≫= f) s =
  match m s with
  | (Ok a, s') => f a s'
  | (Raise e, s') => (Raise e, s')
  end.
Proof. reflexivity. Qed.

Lemma bind_ok {A B} (m : M A) (f : A → M B) s a s' :
  m s = (Ok a, s') → (m ≫= f) s = f a s'.
Proof. intros H. rewrite bind_run, H. reflexivity. Qed.

Lemma bind_raise {A B} (m : M A) (f : A → M B) s e s' :
  m s = (Raise e, s') → (m ≫= f) s = (Raise e, s').
Proof. intros H. rewrite bind_run, H. reflexivity. Qed.

Lemma bind_inv {A B} (m : M A) (f : A → M B) s b s' :
  (m ≫= f) s = (Ok b, s') →
  ∃ a s1, m s = (Ok a, s1) ∧ f a s1 = (Ok b, s').
Proof.
  rewrite bind_run. destruct (m s) as [[a|e] s1]; [eauto | discriminate].
Qed.

Lemma ret_run {A} (a : A) s : (mret a : M A) s = (Ok a, s).
Proof. reflexivity. Qed.

(** *** The store *)

Lemma heap_le_refl h : heap_le h h.
Proof. split; [lia | done]. Qed.

Lemma heap_le_trans h1 h2 h3 : heap_le h1 h2 → heap_le h2 h3 → heap_le h1 h3.
Proof.
  intros [L1 F1] [L2 F2]. split; [lia |].
  intros l k Hl Hk. rewrite F2 by (done || lia). by apply F1.
Qed.

Lemma deref_app_l (h ext : list dict) l :
  (l < length h)%nat → deref (h ++ ext) l = deref h l.
Proof. intros Hl. unfold deref. by rewrite lookup_app_l. Qed.

Lemma deref_app_new (h : list dict) d : deref (h ++ [d]) (length h) = d.
Proof.
  unfold deref. rewrite lookup_app_r by lia.
  by replace (length h - length h)%nat with 0%nat by lia.
Qed.

Lemma deref_alter_eq f (h : list dict) l :
  (l < length h)%nat → deref (alter f l h) l = f (deref h l).
Proof.
  intros Hl. unfold deref. rewrite list_lookup_alter_eq.
  destruct (lookup_lt_is_Some_2 h l Hl) as [d Hd]. by rewrite Hd.
Qed.

Lemma deref_alter_ne f (h : list dict) l l' :
  l ≠ l' → deref (alter f l h) l' = deref h l'.
Proof. intros Hne. unfold deref. by rewrite list_lookup_alter_ne. Qed.

Lemma field_alter_insert_eq (h : list dict) l k v :
  (l < length h)%nat → field (alter (insert k v) l h) l k = Some v.
Proof.
  intros Hl. unfold field. rewrite deref_alter_eq by done. apply lookup_insert_eq.
Qed.

Lemma field_alter_insert_ne (h : list dict) l l' k k' v :
  l ≠ l' ∨ k ≠ k' → field (alter (insert k v) l h) l' k' = field h l' k'.
Proof.
  intros Hne. unfold field.
  destruct (decide (l = l')) as [<-|Hl]; [| by rewrite deref_alter_ne].
  destruct (decide (l < length h)%nat) as [Hlt|Hge].
  - rewrite deref_alter_eq by done.
    apply lookup_insert_ne. by destruct Hne.
  - unfold deref. rewrite list_lookup_alter_eq.
    by rewrite (lookup_ge_None_2 h l) by lia.
Qed.

Lemma heap_le_app h ext : heap_le h (h ++ ext).
Proof.
  split; [rewrite length_app; lia |].
  intros l k Hl _. unfold field. by rewrite deref_app_l.
Qed.

Lemma heap_le_alter_new h h' l k v :
  heap_le h h' → (length h ≤ l)%nat → heap_le h (alter (insert k v) l h').
Proof.
  intros [L F] Hl. split; [by rewrite length_alter |].
  intros l' k' Hl' Hk. rewrite field_alter_insert_ne by (left; lia). by apply F.
Qed.

Lemma heap_le_alter_id h h' l v :
  heap_le h h' → heap_le h (alter (insert "_id" v) l h').
Proof.
  intros [L F]. split; [by rewrite length_alter |].
  intros l' k' Hl' Hk. rewrite field_alter_insert_ne by (right; congruence). by apply F.
Qed.

(** *** Category discovery *)

Section Gather.

Variable w : World.

Lemma is_category_le h h' item l :
  heap_le h h' → is_category w h item l → is_category w h' item l.
Proof.
  intros [L F] (Hl & Hn & link & Hk & Hp & Hv).
  split; [lia |]. split; [by rewrite F |].
  exists link. by rewrite F.
Qed.

Lemma https_prefix x : Str.startswith ("https:" +:+ x) "https:" = true.
Proof. by destruct x. Qed.

Lemma kept_cons item rest : kept (item :: rest) = (kept [item] ++ kept rest)%list.
Proof. unfold kept. simpl. by destruct (negb _). Qed.

Lemma gather_item_spec item categories s :
  ∃ h' new,
    gather_item w item categories s = (Ok (categories ++ new), set_heap h' s) ∧
    heap_le (heap s) h' ∧
    Forall2 (λ it l, (length (heap s) ≤ l)%nat ∧ is_category w h' it l) (kept [item]) new.
Proof.
  unfold gather_item, kept. rewrite bind_run. cbn [new_dict List.filter].
  destruct (Str.startswith (str (href item)) "javascript") eqn:Hjs; cbn [negb].
  - exists (heap s ++ [∅]), []. rewrite app_nil_r.
    split; [reflexivity |]. split; [apply heap_le_app | constructor].
  - set (link := if negb _ then _ else _).
    set (n := length (heap s)).
    exists (alter (insert "name" (VStr (strip w (get_text item)))) n
              (alter (insert "link" (VStr link)) n (heap s ++ [∅]))), [n].
    split; [reflexivity |]. split.
    + apply heap_le_alter_new; [| done].
      apply heap_le_alter_new; [| done]. apply heap_le_app.
    + constructor; [| constructor]. split; [done |].
      assert (Hn : (n < length (alter (insert "link" (VStr link)) n (heap s ++ [∅])))%nat).
      { rewrite length_alter, length_app. simpl. lia. }
      split; [by rewrite length_alter |]. split.
      * by apply field_alter_insert_eq.
      * exists link. split.
        { rewrite field_alter_insert_ne by (right; congruence).
          apply field_alter_insert_eq. rewrite length_app. simpl. lia. }
        subst link. destruct (Str.startswith (str (href item)) "https:") eqn:Hh; cbn [negb];
          auto using https_prefix.
Qed.

Lemma gather_loop_spec all_categories : ∀ categories s,
  ∃ h' new,
    gather_loop w all_categories categories s = (Ok (categories ++ new), set_heap h' s) ∧
    heap_le (heap s) h' ∧
    Forall2 (λ it l, (length (heap s) ≤ l)%nat ∧ is_category w h' it l)
      (kept all_categories) new.
Proof.
  induction all_categories as [|item rest IH]; intros categories s.
  - exists (heap s), []. rewrite app_nil_r. split; [by destruct s |].
    split; [apply heap_le_refl | constructor].
  - cbn [gather_loop].
    destruct (gather_item_spec item categories s) as (h1 & new1 & Hrun1 & Hle1 & Hnew1).
    destruct (IH (categories ++ new1) (set_heap h1 s)) as (h2 & new2 & Hrun2 & Hle2 & Hnew2).
    exists h2, (new1 ++ new2).
    rewrite (bind_ok _ _ _ _ _ Hrun1), Hrun2, app_assoc. st_simpl.
    split; [reflexivity |]. split; [by eapply heap_le_trans |].
    rewrite kept_cons.
    apply Forall2_app.
    + eapply Forall2_impl; [exact Hnew1 |]. intros it l [Hl Hc].
      split; [done |]. by eapply is_category_le.
    + eapply Forall2_impl; [exact Hnew2 |]. intros it l [Hl Hc].
      split; [| done]. destruct Hle1 as [L _]. lia.
Qed.

End Gather.

(** *** Fetching and storing *)

Section Effects.

Variable w : World.

Lemma same_data_refl s : same_data s s.
Proof. done. Qed.

Lemma get_request_content_data url s r s' :
  get_request_content w url s = (r, s') → same_data s s'.
Proof.
  unfold get_request_content. destruct (requests_get w (clock s) url);
    intros [= <- <-]; done.
Qed.

Lemma get_webdriver_content_ok url s src :
  driver_get w (clock s) (sid (driver s)) url = Some src →
  get_webdriver_content w url s =
  (Ok src, emit (EvDriverGet (sid (driver s)) url true)
             (set_driver {| sid := sid (driver s); page_source := src |} s)).
Proof.
  intros H. unfold get_webdriver_content, try_except, driver_navigate.
  rewrite bind_run, H. reflexivity.
Qed.

Lemma get_webdriver_content_fault url s :
  driver_get w (clock s) (sid (driver s)) url = None →
  get_webdriver_content w url s =
  (Ok (fresh_page_source w),
   set_driver {| sid := next_sid s; page_source := fresh_page_source w |}
     (emit (EvDriverInit (next_sid s))
        (set_next_sid (S (next_sid s))
           (emit (EvDriverGet (sid (driver s)) url false) s)))).
Proof.
  intros H. unfold get_webdriver_content, try_except, driver_navigate.
  rewrite bind_run, H. reflexivity.
Qed.

Lemma get_webdriver_content_data url s r s' :
  get_webdriver_content w url s = (r, s') → same_data s s'.
Proof.
  unfold get_webdriver_content, try_except, driver_navigate.
  rewrite bind_run.
  destruct (driver_get w (clock s) (sid (driver s)) url); cbn;
    intros [= <- <-]; done.
Qed.

Lemma get_page_content_data rn url s r s' :
  get_page_content w rn url s = (r, s') → same_data s s'.
Proof.
  unfold get_page_content. destruct (String.eqb rn "tsn.ua");
    eauto using get_request_content_data, get_webdriver_content_data.
Qed.

Lemma parse_page_content_ok rn url s page s' :
  get_page_content w rn url s = (Ok page, s') →
  parse_page_content w rn url s = (Ok (BeautifulSoup w page), s').
Proof. intros H. unfold parse_page_content. by rewrite (bind_ok _ _ _ _ _ H). Qed.

Lemma parse_page_content_inv rn url s sp s' :
  parse_page_content w rn url s = (Ok sp, s') →
  ∃ page, get_page_content w rn url s = (Ok page, s') ∧
          sp = BeautifulSoup w page ∧ same_data s s'.
Proof.
  unfold parse_page_content. intros H.
  apply bind_inv in H as (page & s1 & Hget & Hret).
  injection Hret as <- <-. exists page.
  eauto using get_page_content_data.
Qed.

Lemma assign_id_spec d s :
  ∃ h', assign_id d s = (Ok tt, set_next_oid (next_oid (assign_id d s).2) (set_heap h' s)) ∧
        heap_le (heap s) h' ∧ length h' = length (heap s).
Proof.
  unfold assign_id. destruct (deref (heap s) d !! "_id").
  - exists (heap s). cbn. split; [by destruct s |]. split; [apply heap_le_refl | done].
  - eexists. cbn. split; [reflexivity |].
    split; [apply heap_le_alter_id, heap_le_refl | by rewrite length_alter].
Qed.

Lemma assign_ids_spec data : ∀ s,
  ∃ h' n, assign_ids data s = (Ok tt, set_next_oid n (set_heap h' s)) ∧
          heap_le (heap s) h' ∧ length h' = length (heap s).
Proof.
  induction data as [|d rest IH]; intros s.
  - exists (heap s), (next_oid s). split; [by destruct s |].
    split; [apply heap_le_refl | done].
  - cbn [assign_ids].
    destruct (assign_id_spec d s) as (h1 & Hrun1 & Hle1 & Hlen1).
    rewrite (bind_ok _ _ _ _ _ Hrun1).
    destruct (IH (set_next_oid (next_oid (assign_id d s).2) (set_heap h1 s)))
      as (h2 & n & Hrun2 & Hle2 & Hlen2).
    exists h2, n. rewrite Hrun2. st_simpl.
    split; [reflexivity |]. split; [by eapply heap_le_trans | congruence].
Qed.

Lemma mongo_write_heap d c s r s' :
  mongo_write w d c s = (r, s') → heap s' = heap s.
Proof.
  unfold mongo_write. destruct (negb (forallb _ _)); [by intros [= <- <-] |].
  destruct (_ && _); by intros [= <- <-].
Qed.

Lemma mongo_write_spec d c s b s' :
  mongo_write w d c s = (Ok b, s') →
  stored_from (heap s) [d] (get_coll c s) (get_coll c s') ∧
  (∀ c', c' ≠ c → get_coll c' s' = get_coll c' s).
Proof.
  unfold mongo_write. destruct (negb (forallb _ _)); [discriminate |].
  destruct (_ && _); intros [= <- <-]; st_simpl; split.
  - exists [deref (heap s) d]. split; [done |].
    constructor; [| done]. exists d. split; [apply list_elem_of_here | done].
  - intros c' Hc. st_simpl. by rewrite get_coll_set_coll_ne.
  - exists []. by rewrite app_nil_r.
  - done.
Qed.

Lemma stored_from_refl h data old : stored_from h data old old.
Proof. exists []. by rewrite app_nil_r. Qed.

Lemma stored_from_trans h d1 d2 data c1 c2 c3 :
  d1 ⊆ data → d2 ⊆ data →
  stored_from h d1 c1 c2 → stored_from h d2 c2 c3 → stored_from h data c1 c3.
Proof.
  intros S1 S2 (n1 & E1 & F1) (n2 & E2 & F2). exists (n1 ++ n2)%list.
  split; [by rewrite E2, E1, app_assoc |].
  apply Forall_app. split; (eapply Forall_impl; [eassumption |]);
    intros doc (l & Hl & ->); exists l; split; auto.
Qed.

Lemma bulk_write_heap c data : ∀ s r s',
  bulk_write w data c s = (r, s') → heap s' = heap s.
Proof.
  induction data as [|d rest IH]; intros s r s' H.
  - by injection H as <- <-.
  - cbn [bulk_write] in H. rewrite bind_run in H.
    destruct (mongo_write w d c s) as [[ok|e] s1] eqn:Hw;
      apply mongo_write_heap in Hw.
    + destruct ok; [apply IH in H | injection H as <- <-]; congruence.
    + injection H as <- <-. congruence.
Qed.

Lemma bulk_write_spec c data : ∀ s b s',
  bulk_write w data c s = (Ok b, s') →
  stored_from (heap s) data (get_coll c s) (get_coll c s') ∧
  (∀ c', c' ≠ c → get_coll c' s' = get_coll c' s).
Proof.
  induction data as [|d rest IH]; intros s b s' H.
  - injection H as <- <-. split; [apply stored_from_refl | done].
  - cbn [bulk_write] in H. apply bind_inv in H as (ok & s1 & Hw & Hrest).
    pose proof (mongo_write_heap _ _ _ _ _ Hw) as Hh1.
    apply mongo_write_spec in Hw as (Hst1 & Hoth1).
    assert (S1 : [d] ⊆ d :: rest) by (intros x Hx; apply list_elem_of_singleton in Hx as ->; left).
    assert (S2 : rest ⊆ d :: rest) by (intros x Hx; by right).
    destruct ok.
    + apply IH in Hrest as (Hst2 & Hoth2). split.
      * rewrite Hh1 in Hst2.
        eapply stored_from_trans; [exact S1 | exact S2 | exact Hst1 | exact Hst2].
      * intros c' Hc. rewrite Hoth2, Hoth1; done.
    + injection Hrest as <- <-. split; [| done].
      eapply stored_from_trans; [exact S1 | exact S2 | exact Hst1 | apply stored_from_refl].
Qed.

Lemma insert_many_to_collection_spec c data s r s' :
  insert_many_to_collection w data c s = (r, s') →
  heap_le (heap s) (heap s') ∧ length (heap s') = length (heap s) ∧
  (∀ u, r = Ok u → stored_from (heap s') data (get_coll c s) (get_coll c s') ∧
     ∀ c', c' ≠ c → get_coll c' s' = get_coll c' s).
Proof.
  unfold insert_many_to_collection. destruct data as [|d rest].
  { intros [= <- <-]. st_simpl. split; [apply heap_le_refl |]. split; [done |].
    intros _ _. split; [apply stored_from_refl | done]. }
  set (data := d :: rest). clearbody data. intros H.
  destruct (assign_ids_spec data s) as (h1 & n & Hids & Hle & Hlen).
  rewrite (bind_ok _ _ _ _ _ Hids), bind_run in H.
  destruct (bulk_write w data c _) as [[ok|e] s2] eqn:Hbulk;
    pose proof (bulk_write_heap _ _ _ _ _ Hbulk) as Hh; st_simpl.
  - apply bulk_write_spec in Hbulk as (Hst & Hoth). st_simpl.
    assert (heap s' = h1 ∧ ∀ c', get_coll c' s' = get_coll c' s2) as (Hh' & Ha').
    { destruct ok; injection H as <- <-; st_simpl; by rewrite Hh. }
    rewrite Hh', <- Hlen. split; [done |]. split; [done |]. intros _ _. split.
    + by rewrite Ha'.
    + intros c' Hne. rewrite Ha'. specialize (Hoth c' Hne). by st_simpl.
  - injection H as <- <-. rewrite Hh.
    split; [done |]. split; [done |]. discriminate.
Qed.

End Effects.

(** *** What category discovery returns *)

Section Discovery.

Variable w : World.

Lemma gather_categories_spec url rn sel s cats s' :
  gather_categories w url rn sel s = (Ok cats, s') →
  ∃ page s1,
    get_page_content w rn url s = (Ok page, s1) ∧
    heap_le (heap s) (heap s') ∧
    Forall2 (λ it l, (length (heap s) ≤ l)%nat ∧ is_category w (heap s') it l)
      (kept (select (BeautifulSoup w page) sel)) cats ∧
    stored_from (heap s') cats (category_coll s) (category_coll s') ∧
    articles_coll s' = articles_coll s.
Proof.
  unfold gather_categories. intros H.
  apply bind_inv in H as (sp & s1 & Hparse & H).
  apply parse_page_content_inv in Hparse as (page & Hget & -> & Hh1 & Hc1 & Ha1).
  destruct (gather_loop_spec w (select (BeautifulSoup w page) sel) [] s1)
    as (h2 & new & Hloop & Hle2 & Hnew).
  rewrite (bind_ok _ _ _ _ _ Hloop) in H. cbn [app] in H.
  apply bind_inv in H as ([] & s3 & Hins & Hret). injection Hret as <- <-.
  apply insert_many_to_collection_spec in Hins as (Hle3 & Hlen3 & Hst).
  destruct (Hst tt eq_refl) as (Hstored & Hother). st_simpl.
  exists page, s1. rewrite Hh1 in *. split; [done |].
  split; [by eapply heap_le_trans |]. split.
  - eapply Forall2_impl; [exact Hnew |]. intros it l [Hl Hc].
    split; [done |]. by eapply is_category_le.
  - split.
    + specialize (Hstored). cbn [get_coll] in Hstored. st_simpl. by rewrite <- Hc1.
    + specialize (Hother Articles). cbn [get_coll] in Hother. st_simpl.
      rewrite Hother by done. done.
Qed.

Lemma gather_categories_named url rn sel s cats s' :
  gather_categories w url rn sel s = (Ok cats, s') →
  heap_le (heap s) (heap s') ∧
  Forall (λ l, ∃ item, is_category w (heap s') item l) cats.
Proof.
  intros H. apply gather_categories_spec in H as (page & s1 & _ & Hle & Hall & _).
  split; [done |]. apply Forall2_Forall_r with (1 := Hall), Forall_forall.
  intros item _ l [_ Hc]. eauto.
Qed.

Lemma tsn_categories_inv s cats s' :
  tsn_categories w s = (Ok cats, s') →
  ∃ s1, gather_categories w (url tsn_resource) (name tsn_resource)
          "ul.c-app-nav-more-list li a" s = (Ok cats, s1) ∧
        s' = add_log (IN_PROCESS, "PARSING TSN CATEGORIES") s1.
Proof.
  unfold tsn_categories. intros H. apply bind_inv in H as (c & s1 & Hg & H).
  injection H as <- <-. eauto.
Qed.

Lemma ukrnet_categories_inv s cats s' :
  ukrnet_categories w s = (Ok cats, s') →
  ∃ s1, gather_categories w (url ukrnet_resource) (name ukrnet_resource)
          "h2.feed__section--title a" s = (Ok cats, s1) ∧
        s' = add_log (IN_PROCESS, "PARSING UKR.NET CATEGORIES") s1.
Proof.
  unfold ukrnet_categories. intros H. apply bind_inv in H as (c & s1 & Hg & H).
  injection H as <- <-. eauto.
Qed.

Lemma first_named_none target category_list s :
  Forall (λ l, ∃ n, field (heap s) l "name" = Some (VStr n) ∧ lower w n ≠ target)
    category_list →
  first_named w category_list target s = (Ok None, s).
Proof.
  induction 1 as [|l rest (n & Hn & Hne) _ IH]; [done |].
  cbn [first_named]. unfold getitem at 1. rewrite bind_run.
  unfold field in Hn. rewrite Hn. cbn [as_str]. rewrite bind_run, ret_run.
  destruct (String.eqb_spec (lower w n) target); [done | exact IH].
Qed.

(** The generator stops at the first category, in list order, whose name
    matches. *)
Lemma first_named_first target category_list : ∀ s l s',
  first_named w category_list target s = (Ok (Some l), s') →
  s' = s ∧ ∃ before after n,
    category_list = (before ++ l :: after)%list ∧
    field (heap s) l "name" = Some (VStr n) ∧ lower w n = target ∧
    Forall (λ l', ∃ n', field (heap s) l' "name" = Some (VStr n') ∧ lower w n' ≠ target)
      before.
Proof.
  induction category_list as [|l0 rest IH]; intros s l s' H; [discriminate |].
  cbn [first_named] in H.
  apply bind_inv in H as (v & s1 & Hget & H).
  apply bind_inv in H as (n & s2 & Hstr & H).
  unfold getitem in Hget.
  destruct (deref (heap s) l0 !! "name") as [v'|] eqn:Hv; [| discriminate].
  injection Hget as -> <-. destruct v; try discriminate. injection Hstr as -> <-.
  destruct (String.eqb_spec (lower w n) target) as [Heq|Hne].
  - injection H as <- <-. split; [done |]. exists [], rest, n. by repeat split.
  - apply IH in H as (-> & before & after & n' & -> & Hn' & Hl & Hall).
    split; [done |]. exists (l0 :: before), after, n'. repeat split; try done.
    constructor; [| done]. eauto.
Qed.

End Discovery.

(** *** Articles of ukr.net *)

Section Ukrnet.

Variable w : World.
Variable limit : Z.

Lemma alter_new (f : dict → dict) (h : list dict) d :
  alter f (length h) (h ++ [d]) = (h ++ [f d])%list.
Proof.
  rewrite <- (Nat.add_0_r (length h)) at 1. by rewrite alter_app_r.
Qed.

Lemma encodable_dict (m : dict) :
  map_Forall (λ _ v, encodable v = true) m →
  forallb (λ kv, encodable kv.2) (map_to_list m) = true.
Proof.
  intros H. apply forallb_forall. intros [k v] Hin.
  apply list_elem_of_In, elem_of_map_to_list in Hin. exact (H k v Hin).
Qed.

Lemma is_ukrnet_article_le h h' c item l :
  heap_le h h' → is_ukrnet_article h c item l → is_ukrnet_article h' c item l.
Proof.
  intros [L F] (Hl & Hc & (link & Hh & Hk) & (c0 & Hc0 & Hv)).
  split; [lia |]. split; [by rewrite F |]. split.
  - exists link. by rewrite F.
  - exists c0. by rewrite F.
Qed.

(** Inserting one dictionary never touches another one, and changes at
    most the [_id] of its own. *)
Lemma insert_one_to_collection_spec d c s r s' :
  insert_one_to_collection w d c s = (r, s') →
  heap_le (heap s) (heap s') ∧ length (heap s') = length (heap s) ∧
  trace s `prefix_of` trace s' ∧
  failed_downloads (trace s') = failed_downloads (trace s).
Proof.
  unfold insert_one_to_collection. intros H.
  destruct (assign_id_spec d s) as (h1 & Hid & Hle & Hlen).
  rewrite (bind_ok _ _ _ _ _ Hid), bind_run in H.
  unfold mongo_write in H. st_simpl.
  destruct (negb (forallb _ _)).
  { injection H as <- <-. st_simpl. by split_and!. }
  destruct (_ && _); injection H as <- <-; st_simpl;
    (split; [done |]); (split; [done |]);
    (split; [by apply prefix_app_r |]);
    unfold failed_downloads; by rewrite omap_app, app_nil_r.
Qed.

Lemma insert_one_to_collection_ok d c s :
  map_Forall (λ _ v, encodable v = true) (deref (heap s) d) →
  (d < length (heap s))%nat →
  ∃ s', insert_one_to_collection w d c s = (Ok tt, s').
Proof.
  intros Henc Hd. unfold insert_one_to_collection, assign_id.
  rewrite bind_run.
  destruct (deref (heap s) d !! "_id") eqn:Hid; rewrite bind_run;
    unfold mongo_write; st_simpl.
  - rewrite encodable_dict by done. cbn [negb].
    destruct (_ && _); eexists; reflexivity.
  - rewrite deref_alter_eq by done.
    rewrite encodable_dict by (by apply map_Forall_insert_2). cbn [negb].
    destruct (_ && _); eexists; reflexivity.
Qed.

Lemma ukrnet_item_spec c item s l s' :
  ukrnet_item w c item s = (Ok l, s') →
  l = length (heap s) ∧ heap_le (heap s) (heap s') ∧
  is_ukrnet_article (heap s') c item l.
Proof.
  unfold ukrnet_item. rewrite bind_run. cbn [new_dict]. intros H.
  destruct (href item) as [link|] eqn:Hhref; [| discriminate].
  rewrite bind_run, ret_run in H.
  do 2 (rewrite bind_run in H; cbn [setitem modify] in H). st_simpl.
  rewrite !alter_new in H.
  destruct (contents item) as [|c0 rest] eqn:Hc; [discriminate |].
  rewrite bind_run, ret_run, bind_run in H. cbn [setitem modify] in H. st_simpl.
  rewrite alter_new in H.
  apply bind_inv in H as ([] & s1 & Hins & Hret). injection Hret as <- <-.
  apply insert_one_to_collection_spec in Hins as (Hle & Hlen & _). st_simpl.
  split; [done |]. split; [eapply heap_le_trans; [apply heap_le_app | exact Hle] |].
  eapply is_ukrnet_article_le; [exact Hle |].
  unfold is_ukrnet_article, field. rewrite length_app, deref_app_new. cbn [length].
  split; [lia |]. split; [by simplify_map_eq |].
  split; [exists link | exists c0; rewrite Hc]; by simplify_map_eq.
Qed.

Lemma ukrnet_item_ok c item s :
  text_anchor item → ∃ s', ukrnet_item w c item s = (Ok (length (heap s)), s').
Proof.
  intros [[link Hhref] (x & rest & Hc)].
  unfold ukrnet_item. rewrite bind_run. cbn [new_dict].
  rewrite Hhref, bind_run, ret_run.
  do 2 (rewrite bind_run; cbn [setitem modify]). st_simpl. rewrite !alter_new.
  rewrite Hc, bind_run, ret_run, bind_run. cbn [setitem modify node_value]. st_simpl.
  rewrite alter_new.
  edestruct insert_one_to_collection_ok as (s1 & Hins);
    [| | rewrite (bind_ok _ _ _ _ _ Hins); eauto]; st_simpl.
  - rewrite deref_app_new.
    repeat (apply map_Forall_insert_2; [done |]). apply map_Forall_empty.
  - rewrite length_app. cbn. lia.
Qed.

Lemma ukrnet_loop_spec c all_articles : ∀ count result s r s',
  ukrnet_loop w limit c all_articles count result s = (Ok r, s') →
  heap_le (heap s) (heap s') ∧
  ∃ new, r = (result ++ new)%list ∧
    Z.of_nat (length new) ≤ Z.max 0 (limit + 1 - count) ∧
    Forall2 (λ item l, (length (heap s) ≤ l)%nat ∧ is_ukrnet_article (heap s') c item l)
      (take (length new) all_articles) new.
Proof.
  induction all_articles as [|item rest IH]; intros count result s r s' H.
  - injection H as <- <-. split; [apply heap_le_refl |].
    exists []. rewrite app_nil_r. split; [done |]. split; [cbn; lia | constructor].
  - cbn [ukrnet_loop] in H. destruct (Z.leb_spec count limit) as [Hc|Hc].
    + apply bind_inv in H as (l & s1 & Hitem & Hrest).
      apply ukrnet_item_spec in Hitem as (-> & Hle1 & Hart).
      apply IH in Hrest as (Hle2 & new & -> & Hlen & Hall).
      split; [by eapply heap_le_trans |].
      exists (length (heap s) :: new). rewrite <- app_assoc.
      split; [done |]. split; [cbn [length]; lia |].
      cbn [length take]. constructor.
      * split; [done |]. by eapply is_ukrnet_article_le.
      * eapply Forall2_impl; [exact Hall |]. intros it l [Hl Hi].
        split; [| done]. destruct Hle1 as [L _]. lia.
    + injection H as <- <-. split; [apply heap_le_refl |].
      exists []. rewrite app_nil_r. split; [done |]. split; [cbn; lia | constructor].
Qed.

Lemma ukrnet_loop_ok c all_articles : ∀ count result s,
  Forall text_anchor (take (Z.to_nat (limit + 1 - count)) all_articles) →
  ∃ r s', ukrnet_loop w limit c all_articles count result s = (Ok r, s') ∧
    length r = (length result +
                Nat.min (length all_articles) (Z.to_nat (limit + 1 - count)))%nat.
Proof.
  induction all_articles as [|item rest IH]; intros count result s Hwf.
  - exists result, s. split; [done |]. cbn. lia.
  - cbn [ukrnet_loop]. destruct (Z.leb_spec count limit) as [Hc|Hc].
    + replace (Z.to_nat (limit + 1 - count))
        with (S (Z.to_nat (limit + 1 - (count + 1)))) in * by lia.
      cbn [take] in Hwf. apply Forall_cons in Hwf as [Hitem Hrest].
      destruct (ukrnet_item_ok c item s Hitem) as (s1 & Hrun).
      rewrite (bind_ok _ _ _ _ _ Hrun).
      destruct (IH (count + 1) (result ++ [length (heap s)])%list s1 Hrest)
        as (r & s' & Hloop & Hlen).
      exists r, s'. split; [done |]. rewrite Hlen, length_app. cbn [length]. lia.
    + exists result, s. split; [done |].
      replace (Z.to_nat (limit + 1 - count)) with 0%nat by lia. lia.
Qed.

Lemma get_ukrnet_articles_inv c url s r s' :
  get_ukrnet_articles w limit c url s = (Ok r, s') →
  ∃ page s1 s2,
    get_page_content w (name ukrnet_resource) url s = (Ok page, s1) ∧
    heap s1 = heap s ∧
    ukrnet_loop w limit c (select (BeautifulSoup w page) "div.im-tl a") 0 [] s1 = (Ok r, s2) ∧
    heap s' = heap s2.
Proof.
  unfold get_ukrnet_articles. intros H.
  apply bind_inv in H as (sp & s1 & Hparse & H).
  apply parse_page_content_inv in Hparse as (page & Hget & -> & Hh & _).
  apply bind_inv in H as (res & s2 & Hloop & H). injection H as <- <-.
  exists page, s1, s2. by st_simpl.
Qed.

End Ukrnet.

(** *** Text search *)

Section TextSearch.

Variable w : World.

Lemma field_app_l (h ext : list dict) l k :
  (l < length h)%nat → field (h ++ ext) l k = field h l k.
Proof. intros Hl. unfold field. by rewrite deref_app_l. Qed.

Lemma field_is_Some_lt (h : list dict) l k v : field h l k = Some v → (l < length h)%nat.
Proof.
  unfold field, deref. intros H. apply lookup_lt_is_Some.
  destruct (h !! l); [done |]. cbn [default] in H. by rewrite lookup_empty in H.
Qed.

Lemma getitem_ok d k s v : field (heap s) d k = Some v → getitem d k s = (Ok v, s).
Proof. unfold getitem, field. by intros ->. Qed.

Lemma getitem_inv d k s v s' :
  getitem d k s = (Ok v, s') → s' = s ∧ field (heap s) d k = Some v.
Proof.
  unfold getitem, field. destruct (deref (heap s) d !! k); [| discriminate].
  by intros [= -> ->].
Qed.

Lemma first_content_stripped_inv item s v s' :
  first_content_stripped w item s = (Ok v, s') →
  s' = s ∧ ∀ s0, first_content_stripped w item s0 = (Ok v, s0).
Proof.
  unfold first_content_stripped.
  destruct (contents item) as [|[x|[]] rest]; try discriminate;
    by intros [= <- <-].
Qed.

(** After the inner loop the one dictionary [article] occurs once per
    match in the result and holds what the last match wrote. *)
Lemma text_matches_spec article link all_articles : ∀ result s r s',
  text_matches w article link all_articles result s = (Ok r, s') →
  article ≠ link → (article < length (heap s))%nat →
  length (heap s') = length (heap s) ∧
  r = (result ++ replicate (length all_articles) article)%list ∧
  ∀ item, last all_articles = Some item →
    field (heap s') article "link" = Some (opt_value (href item)) ∧
    field (heap s') article "category" = field (heap s') link "name" ∧
    ∃ v, first_content_stripped w item s' = (Ok v, s') ∧
         field (heap s') article "content" = Some v.
Proof.
  induction all_articles as [|item rest IH]; intros result s r s' H Hne Hlt.
  - injection H as <- <-. split; [done |]. split; [by rewrite app_nil_r | done].
  - cbn [text_matches] in H.
    apply bind_inv in H as ([] & sa & Ha & H). injection Ha as <-.
    apply bind_inv in H as (cat & sb & Hb & H).
    apply getitem_inv in Hb as (-> & Hcat).
    apply bind_inv in H as ([] & sc & Hc & H). injection Hc as <-.
    apply bind_inv in H as (v & sd & Hd & H).
    apply first_content_stripped_inv in Hd as (-> & Hv).
    apply bind_inv in H as ([] & se & He & H). injection He as <-.
    apply bind_inv in H as ([] & sf & Hf & H).
    apply insert_one_to_collection_spec in Hf as (Hle & Hlen & _).
    st_simpl. rewrite !length_alter in Hlen.
    destruct rest as [|item2 rest].
    + injection H as <- <-. clear IH. split; [lia |]. split; [done |].
      intros it [= <-]. destruct Hle as [_ Hle].
      assert (Hlink : (link < length (heap s))%nat).
      { rewrite field_alter_insert_ne in Hcat by (by left).
        by eapply field_is_Some_lt. }
      rewrite !length_alter in Hle.
      rewrite !(Hle article), (Hle link) by done.
      split.
      { rewrite field_alter_insert_ne by (right; congruence).
        rewrite field_alter_insert_ne by (right; congruence).
        apply field_alter_insert_eq. exact Hlt. }
      split.
      { rewrite field_alter_insert_ne by (right; congruence).
        rewrite field_alter_insert_eq by (by rewrite length_alter).
        rewrite field_alter_insert_ne by (by left).
        rewrite field_alter_insert_ne by (by left). by rewrite Hcat. }
      exists v. split; [apply Hv |].
      by rewrite field_alter_insert_eq by (by rewrite !length_alter).
    + apply IH in H as (Hlen' & -> & Hlast); [| done | lia].
      split; [lia |]. split.
      { rewrite <- app_assoc. done. }
      intros it Hit. apply Hlast. exact Hit.
Qed.

Lemma as_str_inv v s x s' : as_str v s = (Ok x, s') → v = VStr x ∧ s' = s.
Proof. destruct v; try discriminate. by intros [= -> ->]. Qed.

End TextSearch.

(** ** The claims *)

Lemma https_not_javascript link :
  Str.startswith link "https:" = true → Str.startswith link "javascript" = false.
Proof.
  unfold Str.startswith. destruct link as [|c link]; [discriminate |].
  cbn [String.prefix]. destruct (ascii_dec "h" c) as [<-|]; [done | discriminate].
Qed.

Lemma new_events_app s s' l : trace s' = (trace s ++ l)%list → new_events s s' = l.
Proof. unfold new_events. intros ->. apply drop_app_length. Qed.

(** C10.  The fetch strategy is chosen by comparing the resource name with
    the string 'tsn.ua': the page is fetched with one plain HTTP GET exactly
    when the name is 'tsn.ua'; for every other name the request goes to the
    browser session and no HTTP GET is made. *)
Theorem get_page_content_dispatch (w : World) (resource_name url : string) (s : Scraper) :
  let s' := (get_page_content w resource_name url s).2 in
  (resource_name = "tsn.ua" ↔
     get_page_content w resource_name url s = get_request_content w url s ∧
     ∃ ok, new_events s s' = [EvHttpGet url ok]) ∧
  (resource_name ≠ "tsn.ua" ↔
     get_page_content w resource_name url s = get_webdriver_content w url s ∧
     ∃ ok rest, new_events s s' = EvDriverGet (sid (driver s)) url ok :: rest ∧
                Forall (λ e, is_driver_event e = true) rest).
Proof.
  assert (Hhttp : ∃ ok, new_events s (get_request_content w url s).2 = [EvHttpGet url ok]).
  { unfold get_request_content.
    destruct (requests_get w (clock s) url); eexists; by apply new_events_app. }
  assert (Hdrv : ∃ ok rest,
    new_events s (get_webdriver_content w url s).2 = EvDriverGet (sid (driver s)) url ok :: rest ∧
    Forall (λ e, is_driver_event e = true) rest).
  { destruct (driver_get w (clock s) (sid (driver s)) url) as [src|] eqn:Hnav.
    - rewrite (get_webdriver_content_ok _ _ _ _ Hnav).
      exists true, []. split; [by apply new_events_app | constructor].
    - rewrite (get_webdriver_content_fault _ _ _ Hnav).
      exists false, [EvDriverInit (next_sid s)]. split.
      + apply new_events_app. st_simpl. by rewrite <- app_assoc.
      + by repeat constructor. }
  unfold get_page_content. cbn zeta.
  destruct (String.eqb_spec resource_name "tsn.ua") as [Heq|Hne].
  - split; (split; [done |]).
    + intros _. done.
    + intros [_ (ok & rest & Hev & _)]. destruct Hhttp as (ok' & Hhttp).
      rewrite Hhttp in Hev. discriminate.
  - split; (split; [done |]).
    + intros [_ (ok & Hev)]. destruct Hdrv as (ok' & rest & Hd & _).
      rewrite Hd in Hev. discriminate.
    + intros _. done.
Qed.

(** C3 (the code departs from it).  When navigation raises a driver fault,
    [get_webdriver_content] starts a fresh session and returns, without an
    error, the page source of that fresh session: the navigation is failed
    once, the browser is started once, and no second navigation to the URL
    is made. *)
Theorem get_webdriver_content_fault_no_retry (w : World) (url : string) (s : Scraper) :
  driver_get w (clock s) (sid (driver s)) url = None →
  ∃ s', get_webdriver_content w url s = (Ok (fresh_page_source w), s') ∧
        new_events s s' = [EvDriverGet (sid (driver s)) url false; EvDriverInit (next_sid s)] ∧
        driver s' = {| sid := next_sid s; page_source := fresh_page_source w |}.
Proof.
  intros Hfault. rewrite (get_webdriver_content_fault _ _ _ Hfault).
  eexists. split; [reflexivity |]. split; [| reflexivity].
  apply new_events_app. st_simpl. by rewrite <- app_assoc.
Qed.

Lemma get_webdriver_content_fault_no_retry_witness :
  let c := {| Demo.title := true; Demo.images_up := true;
              Demo.browser_up := false; Demo.listed := 11 |} in
  ∃ s', get_webdriver_content (Demo.world c) "https://www.ukr.net/" (Demo.start c)
        = (Ok "<html><head></head><body></body></html>", s') ∧
        new_events (Demo.start c) s'
        = [EvDriverGet 0 "https://www.ukr.net/" false; EvDriverInit 1] ∧
        driver s' = {| sid := 1; page_source := "<html><head></head><body></body></html>" |}.
Proof.
  intros c.
  apply (get_webdriver_content_fault_no_retry (Demo.world c) "https://www.ukr.net/" (Demo.start c)).
  reflexivity.
Defined.

Lemma first_named_found (w : World) target l n after before : ∀ s,
  Forall (λ l', ∃ n', field (heap s) l' "name" = Some (VStr n') ∧ lower w n' ≠ target)
    before →
  field (heap s) l "name" = Some (VStr n) → lower w n = target →
  first_named w (before ++ l :: after) target s = (Ok (Some l), s).
Proof.
  intros s Hbefore Hn Hl. induction Hbefore as [|l0 rest (n0 & Hn0 & Hne) _ IH];
    cbn [app first_named].
  - rewrite (bind_ok _ _ _ _ _ (getitem_ok _ _ _ _ Hn)). cbn [as_str].
    rewrite bind_run, ret_run. by destruct (String.eqb_spec (lower w n) target).
  - rewrite (bind_ok _ _ _ _ _ (getitem_ok _ _ _ _ Hn0)). cbn [as_str].
    rewrite bind_run, ret_run. by destruct (String.eqb_spec (lower w n0) target).
Qed.

(** What [search_by_category] does once the name is found: the category it
    takes is the first one, in the order tsn.ua then ukr.net, whose
    lower-cased name is the lower-cased input, and the articles are those of
    the extraction that its link selects. *)
Lemma search_by_category_found (w : World) (limit : Z) (a ta : string) (s : Scraper)
    (tsn : list loc) (s1 : Scraper) (ukrnet : list loc) (s2 : Scraper)
    (before : list loc) (l : loc) (after : list loc) (n link : string) :
  Str.decode_utf8 a = Some ta →
  tsn_categories w s = (Ok tsn, s1) →
  ukrnet_categories w s1 = (Ok ukrnet, s2) →
  (tsn ++ ukrnet)%list = (before ++ l :: after)%list →
  field (heap s2) l "name" = Some (VStr n) → lower w n = lower w ta →
  Forall (λ l', ∃ n', field (heap s2) l' "name" = Some (VStr n') ∧
                      lower w n' ≠ lower w ta) before →
  field (heap s2) l "link" = Some (VStr link) →
  search_by_category w limit a s =
  match (if Str.contains "ukr.net" link
         then get_ukrnet_articles w limit (lower w ta) link
         else get_tsn_articles w limit (lower w ta) link) s2 with
  | (Ok articles, s3) =>
      (Ok (RArticles articles), add_log (SUCCESS, "SEARCH BY CATEGORY") s3)
  | (Raise e, s3) => (Raise e, s3)
  end.
Proof.
  intros Hdec Htsn Hukr Hsplit Hn Hl Hbefore Hlink.
  unfold search_by_category, decode. rewrite Hdec, bind_run, ret_run. cbn zeta.
  rewrite (bind_ok _ _ _ _ _ Htsn), (bind_ok _ _ _ _ _ Hukr), Hsplit.
  rewrite (bind_ok _ _ _ _ _ (first_named_found w _ _ _ _ _ _ Hbefore Hn Hl)).
  rewrite (bind_ok _ _ _ _ _ (getitem_ok _ _ _ _ Hlink)). cbn [as_str].
  rewrite bind_run, ret_run, bind_run.
  destruct (Str.contains "ukr.net" link).
  - by destruct (get_ukrnet_articles w limit (lower w ta) link s2) as [[articles|e] s3].
  - by destruct (get_tsn_articles w limit (lower w ta) link s2) as [[articles|e] s3].
Qed.

(** C7.  Let a category be known: it is the first of the discovered
    categories, tsn.ua before ukr.net, whose lower-cased name is the
    lower-cased input.  Then two inputs that differ only in letter case, that
    is, with the same lower-case form, give the same run of
    [search_by_category], and that run is the extraction for this first
    match: the lookup does not see letter case, and the first match wins. *)
Theorem search_by_category_case_insensitive (w : World) (limit : Z)
    (a b ta tb : string) (s : Scraper)
    (tsn : list loc) (s1 : Scraper) (ukrnet : list loc) (s2 : Scraper)
    (before : list loc) (l : loc) (after : list loc) (n : string) :
  Str.decode_utf8 a = Some ta → Str.decode_utf8 b = Some tb →
  lower w ta = lower w tb →
  tsn_categories w s = (Ok tsn, s1) →
  ukrnet_categories w s1 = (Ok ukrnet, s2) →
  (tsn ++ ukrnet)%list = (before ++ l :: after)%list →
  field (heap s2) l "name" = Some (VStr n) → lower w n = lower w ta →
  Forall (λ l', ∃ n', field (heap s2) l' "name" = Some (VStr n') ∧
                      lower w n' ≠ lower w ta) before →
  search_by_category w limit a s = search_by_category w limit b s ∧
  ∃ link,
    field (heap s2) l "link" = Some (VStr link) ∧
    search_by_category w limit a s =
    match (if Str.contains "ukr.net" link
           then get_ukrnet_articles w limit (lower w ta) link
           else get_tsn_articles w limit (lower w ta) link) s2 with
    | (Ok articles, s3) =>
        (Ok (RArticles articles), add_log (SUCCESS, "SEARCH BY CATEGORY") s3)
    | (Raise e, s3) => (Raise e, s3)
    end.
Proof.
  intros Ha Hb Hlow Htsn Hukr Hsplit Hn Hl Hbefore.
  assert (Hlink : ∃ link, field (heap s2) l "link" = Some (VStr link)).
  { assert (Hin : l ∈ (tsn ++ ukrnet)%list).
    { rewrite Hsplit. apply elem_of_app. right. left. }
    pose proof Htsn as Htsn'. pose proof Hukr as Hukr'.
    apply tsn_categories_inv in Htsn' as (s1' & Hg1 & ->).
    apply ukrnet_categories_inv in Hukr' as (s2' & Hg2 & ->).
    apply gather_categories_named in Hg1 as (_ & Hn1).
    apply gather_categories_named in Hg2 as (Hle2 & Hn2). st_simpl.
    assert (Hcat : ∃ item, is_category w (heap s2') item l).
    { apply elem_of_app in Hin as [Hin|Hin].
      - rewrite Forall_forall in Hn1. destruct (Hn1 l Hin) as (item & Hc).
        exists item. by eapply is_category_le.
      - rewrite Forall_forall in Hn2. exact (Hn2 l Hin). }
    destruct Hcat as (item & _ & _ & link & Hf & _). eauto. }
  destruct Hlink as (link & Hlink).
  pose proof (search_by_category_found w limit a ta s tsn s1 ukrnet s2 before l after
                n link Ha Htsn Hukr Hsplit Hn Hl Hbefore Hlink) as Hrun_a.
  assert (Hrun_b : search_by_category w limit b s = search_by_category w limit a s).
  { rewrite Hrun_a.
    rewrite (search_by_category_found w limit b tb s tsn s1 ukrnet s2 before l after
               n link Hb Htsn Hukr Hsplit Hn); rewrite <- ?Hlow; done. }
  split; [done |]. exists link. by split.
Qed.

Lemma search_by_category_case_insensitive_witness :
  let w := Demo.world Demo.usual in
  let s := Demo.start Demo.usual in
  let s2 := (ukrnet_categories w (tsn_categories w s).2).2 in
  search_by_category w 10 "SPORT" s = search_by_category w 10 "Sport" s ∧
  ∃ link,
    field (heap s2) 1%nat "link" = Some (VStr link) ∧
    search_by_category w 10 "SPORT" s =
    match (if Str.contains "ukr.net" link
           then get_ukrnet_articles w 10 (lower w "SPORT") link
           else get_tsn_articles w 10 (lower w "SPORT") link) s2 with
    | (Ok articles, s3) =>
        (Ok (RArticles articles), add_log (SUCCESS, "SEARCH BY CATEGORY") s3)
    | (Raise e, s3) => (Raise e, s3)
    end.
Proof.
  intros w s s2.
  apply (search_by_category_case_insensitive w 10 "SPORT" "Sport" "SPORT" "Sport" s
           [1; 2]%nat (tsn_categories w s).2 [3]%nat s2 [] 1%nat [2; 3]%nat "Sport").
  - reflexivity.
  - reflexivity.
  - reflexivity.
  - vm_compute. reflexivity.
  - vm_compute. reflexivity.
  - reflexivity.
  - vm_compute. reflexivity.
  - reflexivity.
  - constructor.
Defined.

(** C1 (the code departs from it).  With a limit [limit ≥ 0] and a listing
    page that offers more than [limit] anchors, [get_ukrnet_articles]
    returns [limit + 1] articles, one more than the limit: the loop tests
    [count <= self.limit]. *)
Theorem get_ukrnet_articles_one_over_limit (w : World) (limit : Z)
    (category_name url : string) (s : Scraper) (page : string) (s1 : Scraper) :
  0 ≤ limit →
  get_page_content w (name ukrnet_resource) url s = (Ok page, s1) →
  Forall text_anchor (select (BeautifulSoup w page) "div.im-tl a") →
  (Z.to_nat limit < length (select (BeautifulSoup w page) "div.im-tl a"))%nat →
  ∃ articles s',
    get_ukrnet_articles w limit category_name url s = (Ok articles, s') ∧
    Z.of_nat (length articles) = limit + 1.
Proof.
  intros Hlimit Hget Hwf Hmany. unfold get_ukrnet_articles.
  rewrite (bind_ok _ _ _ _ _ (parse_page_content_ok _ _ _ _ _ _ Hget)).
  destruct (ukrnet_loop_ok w limit category_name
              (select (BeautifulSoup w page) "div.im-tl a") 0 [] s1)
    as (r & s2 & Hloop & Hlen).
  { by apply Forall_take. }
  rewrite (bind_ok _ _ _ _ _ Hloop). eexists _, _. split; [reflexivity |].
  rewrite Hlen. cbn [length]. lia.
Qed.

Lemma get_ukrnet_articles_one_over_limit_witness :
  ∃ articles s',
    get_ukrnet_articles (Demo.world Demo.usual) 10 "main"
      "https://www.ukr.net/news/main.html" (Demo.start Demo.usual) = (Ok articles, s') ∧
    Z.of_nat (length articles) = 10 + 1.
Proof.
  apply (get_ukrnet_articles_one_over_limit (Demo.world Demo.usual) 10 "main"
           "https://www.ukr.net/news/main.html" (Demo.start Demo.usual)
           Demo.ukrnet_main_html
           (get_page_content (Demo.world Demo.usual) "ukr.net"
              "https://www.ukr.net/news/main.html" (Demo.start Demo.usual)).2).
  - lia.
  - vm_compute. reflexivity.
  - vm_compute. repeat constructor; eauto.
  - vm_compute. lia.
Defined.

(** The run that the witness above is about: eleven anchors on the page,
    a limit of ten, eleven articles returned and eleven stored. *)
Example get_ukrnet_articles_eleven :
  let r := get_ukrnet_articles (Demo.world Demo.usual) 10 "main"
             "https://www.ukr.net/news/main.html" (Demo.start Demo.usual) in
  r.1 = Ok [0; 1; 2; 3; 4; 5; 6; 7; 8; 9; 10]%nat ∧
  length (articles_coll r.2) = 11%nat.
Proof. vm_compute. done. Qed.

Lemma protocol_relative_https link :
  Str.startswith link "//" = true → scheme_qualified ("https:" +:+ link) = true.
Proof.
  unfold Str.startswith, scheme_qualified.
  destruct link as [|c1 [|c2 rest]]; cbn [String.prefix];
    try discriminate.
  - by destruct (ascii_dec "/" c1).
  - destruct (ascii_dec "/" c1) as [<-|]; [| discriminate].
    destruct (ascii_dec "/" c2) as [<-|]; [| discriminate].
    intros _. by destruct rest.
Qed.

Lemma protocol_relative_kept link :
  Str.startswith link "//" = true → Str.startswith link "javascript" = false.
Proof.
  unfold Str.startswith. destruct link as [|c1 rest]; [discriminate |].
  cbn [String.prefix]. destruct (ascii_dec "/" c1) as [<-|]; [done | discriminate].
Qed.

Lemma protocol_relative_not_https link :
  Str.startswith link "//" = true → Str.startswith link "https:" = false.
Proof.
  unfold Str.startswith. destruct link as [|c1 rest]; [discriminate |].
  cbn [String.prefix]. destruct (ascii_dec "/" c1) as [<-|]; [done | discriminate].
Qed.

(** C5, as amended.  In category discovery every protocol-relative link is
    stored with 'https:' put in front of it, and so is absolute and carries
    its scheme.  In the single-pass extraction of ukr.net a protocol-relative
    link is stored with its two leading slashes cut off and no scheme put in
    front. *)
Theorem protocol_relative_links (w : World) (limit : Z) :
  (∀ url rn sel s cats s',
     gather_categories w url rn sel s = (Ok cats, s') →
     ∃ page s1,
       get_page_content w rn url s = (Ok page, s1) ∧
       ∀ item link,
         item ∈ select (BeautifulSoup w page) sel →
         href item = Some link → Str.startswith link "//" = true →
         scheme_qualified ("https:" +:+ link) = true ∧
         ∃ l, l ∈ cats ∧ field (heap s') l "link" = Some (VStr ("https:" +:+ link))) ∧
  (∀ c url s articles s',
     get_ukrnet_articles w limit c url s = (Ok articles, s') →
     ∃ page s1,
       get_page_content w (name ukrnet_resource) url s = (Ok page, s1) ∧
       Forall2 (λ item l, ∀ link,
                  href item = Some link → Str.startswith link "//" = true →
                  field (heap s') l "link" = Some (VStr (Str.drop 2 link)))
         (take (length articles) (select (BeautifulSoup w page) "div.im-tl a"))
         articles).
Proof.
  split.
  - intros url rn sel s cats s' H.
    apply gather_categories_spec in H as (page & s1 & Hget & _ & Hall & _).
    exists page, s1. split; [done |]. intros item link Hin Hhref Hrel.
    split; [by apply protocol_relative_https |].
    assert (Hkept : item ∈ kept (select (BeautifulSoup w page) sel)).
    { unfold kept. apply list_elem_of_In, filter_In. split; [by apply list_elem_of_In |].
      rewrite Hhref. cbn [str]. by rewrite protocol_relative_kept. }
    apply list_elem_of_lookup in Hkept as [i Hi].
    destruct (Forall2_lookup_l _ _ _ _ _ Hall Hi) as (l & Hl & _ & _ & _ & link' & Hf & _ & Hv).
    exists l. split; [by eapply list_elem_of_lookup_2 |].
    rewrite Hf, Hv, Hhref. cbn [str]. by rewrite protocol_relative_not_https.
  - intros c url s articles s' H.
    apply get_ukrnet_articles_inv in H as (page & s1 & s2 & Hget & Hh1 & Hloop & Hh2).
    apply ukrnet_loop_spec in Hloop as (_ & new & Hnew & _ & Hall).
    cbn [app] in Hnew. subst new. exists page, s1. split; [done |].
    eapply Forall2_impl; [exact Hall |].
    intros item l [_ (_ & _ & (link' & Hhref' & Hf) & _)] link Hhref Hrel.
    rewrite Hh2, Hf. rewrite Hhref in Hhref'. injection Hhref' as <-.
    unfold ukrnet_link. by rewrite Hrel.
Qed.

Lemma protocol_relative_links_witness :
  ∃ page s1,
    get_page_content (Demo.world Demo.usual) "ukr.net"
      "https://www.ukr.net/news/main.html" (Demo.start Demo.usual) = (Ok page, s1) ∧
    Forall2 (λ item l, ∀ link,
               href item = Some link → Str.startswith link "//" = true →
               field (heap (get_ukrnet_articles (Demo.world Demo.usual) 0 "main"
                        "https://www.ukr.net/news/main.html" (Demo.start Demo.usual)).2)
                 l "link" = Some (VStr (Str.drop 2 link)))
      (take (length [0%nat])
         (select (BeautifulSoup (Demo.world Demo.usual) page) "div.im-tl a"))
      [0%nat].
Proof.
  apply (proj2 (protocol_relative_links (Demo.world Demo.usual) 0) "main"
           "https://www.ukr.net/news/main.html" (Demo.start Demo.usual) [0%nat]).
  vm_compute. reflexivity.
Defined.

(** C5 as the specification has it fails: on the ukr.net listing of the
    example web the first anchor has the protocol-relative link
    '//www.ukr.net/news/details/a.html', and the article made from it has
    the link 'www.ukr.net/news/details/a.html', which has no scheme. *)
Lemma protocol_relative_article_link_counterexample :
  let w := Demo.world Demo.usual in
  let r := get_ukrnet_articles w 10 "main" "https://www.ukr.net/news/main.html"
             (Demo.start Demo.usual) in
  (href <$> head (select (BeautifulSoup w Demo.ukrnet_main_html) "div.im-tl a"))
    = Some (Some "//www.ukr.net/news/details/a.html") ∧
  head <$> (match r.1 with Ok l => Some l | Raise _ => None end) = Some (Some 0%nat) ∧
  field (heap r.2) 0 "link" = Some (VStr "www.ukr.net/news/details/a.html") ∧
  scheme_qualified "www.ukr.net/news/details/a.html" = false.
Proof. vm_compute. done. Qed.

Lemma Forall2_filter_l {A B} (f : A → bool) (R : A → B → Prop) (xs : list A) (ys : list B) :
  Forall2 R (List.filter f xs) ys →
  Forall2 (λ x y, f x = true ∧ R x y) (List.filter f xs) ys.
Proof.
  assert (Hf : Forall (λ x, f x = true) (List.filter f xs)).
  { apply Forall_forall. intros x Hx. by apply list_elem_of_In, filter_In in Hx as [_ ?]. }
  revert Hf. generalize (List.filter f xs). intros l Hf H.
  induction H as [|x y l ys' HR _ IH]; [constructor |].
  apply Forall_cons in Hf as [Hx Hl]. constructor; [done | by apply IH].
Qed.

(** C8.  Whatever the index page holds, the anchors whose link starts with
    'javascript' are skipped: the categories returned by [gather_categories]
    are, one for one and in page order, made from the other anchors, and
    each has the anchor's link, with 'https:' put in front unless it is there
    already.  So no category returned has a link that starts with
    'javascript', and no document added to the categories collection has
    one. *)
Theorem gather_categories_no_javascript (w : World) (url rn sel : string)
    (s : Scraper) (cats : list loc) (s' : Scraper) :
  gather_categories w url rn sel s = (Ok cats, s') →
  Forall (λ l, ∃ link, field (heap s') l "link" = Some (VStr link) ∧
                       Str.startswith link "javascript" = false) cats ∧
  (∃ docs, category_coll s' = (category_coll s ++ docs)%list ∧
           Forall (λ doc : dict, ∃ link, doc !! "link" = Some (VStr link) ∧
                                 Str.startswith link "javascript" = false) docs) ∧
  ∃ page s1,
    get_page_content w rn url s = (Ok page, s1) ∧
    Forall2 (λ item l,
               negb (Str.startswith (str (href item)) "javascript") = true ∧
               field (heap s') l "link"
               = Some (VStr (if Str.startswith (str (href item)) "https:"
                             then str (href item) else "https:" +:+ str (href item))))
      (List.filter (λ item, negb (Str.startswith (str (href item)) "javascript"))
         (select (BeautifulSoup w page) sel))
      cats.
Proof.
  intros H. apply gather_categories_spec in H as (page & s1 & Hget & _ & Hall & Hst & _).
  assert (Hcats : Forall (λ l, ∃ link, field (heap s') l "link" = Some (VStr link) ∧
                                       Str.startswith link "javascript" = false) cats).
  { apply Forall2_Forall_r with (1 := Hall), Forall_forall.
    intros item _ l [_ (_ & _ & link & Hf & Hp & _)].
    exists link. split; [done | by apply https_not_javascript]. }
  split; [done |]. split.
  - destruct Hst as (docs & Hdocs & Hfrom).
    exists docs. split; [done |].
    eapply Forall_impl; [exact Hfrom |]. intros doc (l & Hl & ->).
    rewrite Forall_forall in Hcats. exact (Hcats l Hl).
  - exists page, s1. split; [done |]. apply Forall2_filter_l.
    eapply Forall2_impl; [exact Hall |].
    intros item l [_ (_ & _ & link & Hf & _ & ->)]. exact Hf.
Qed.

Lemma gather_categories_no_javascript_witness :
  let w := Demo.world Demo.usual in
  let r := gather_categories w "https://tsn.ua/" "tsn.ua"
             "ul.c-app-nav-more-list li a" (Demo.start Demo.usual) in
  Forall (λ l, ∃ link, field (heap r.2) l "link" = Some (VStr link) ∧
                       Str.startswith link "javascript" = false) [1; 2]%nat ∧
  (∃ docs, category_coll r.2 = (category_coll (Demo.start Demo.usual) ++ docs)%list ∧
           Forall (λ doc : dict, ∃ link, doc !! "link" = Some (VStr link) ∧
                                 Str.startswith link "javascript" = false) docs) ∧
  ∃ page s1,
    get_page_content w "tsn.ua" "https://tsn.ua/" (Demo.start Demo.usual) = (Ok page, s1) ∧
    Forall2 (λ item l,
               negb (Str.startswith (str (href item)) "javascript") = true ∧
               field (heap r.2) l "link"
               = Some (VStr (if Str.startswith (str (href item)) "https:"
                             then str (href item) else "https:" +:+ str (href item))))
      (List.filter (λ item, negb (Str.startswith (str (href item)) "javascript"))
         (select (BeautifulSoup w page) "ul.c-app-nav-more-list li a"))
      [1; 2]%nat.
Proof.
  intros w r.
  apply (gather_categories_no_javascript w "https://tsn.ua/"
           "tsn.ua" "ul.c-app-nav-more-list li a" (Demo.start Demo.usual) [1; 2]%nat r.2).
  vm_compute. reflexivity.
Defined.

(** A name that no discovered category has ends in the StopIteration branch. *)
Lemma search_by_category_none (w : World) (limit : Z)
    (category_name t : string) (s : Scraper)
    (tsn : list loc) (s1 : Scraper) (ukrnet : list loc) (s2 : Scraper) :
  Str.decode_utf8 category_name = Some t →
  tsn_categories w s = (Ok tsn, s1) →
  ukrnet_categories w s1 = (Ok ukrnet, s2) →
  Forall (λ l, ∀ n, field (heap s2) l "name" = Some (VStr n) → lower w n ≠ lower w t)
    (tsn ++ ukrnet) →
  ∃ s', search_by_category w limit category_name s = (Ok RFalse, s') ∧
        RFalse ≠ RArticles [].
Proof.
  intros Hdec Htsn Hukr Hnone.
  unfold search_by_category, decode. rewrite Hdec, bind_run, ret_run. cbn zeta.
  rewrite (bind_ok _ _ _ _ _ Htsn), (bind_ok _ _ _ _ _ Hukr).
  apply tsn_categories_inv in Htsn as (s1' & Hg1 & ->).
  apply ukrnet_categories_inv in Hukr as (s2' & Hg2 & ->).
  apply gather_categories_named in Hg1 as (_ & Hn1).
  apply gather_categories_named in Hg2 as (Hle2 & Hn2). st_simpl.
  assert (Hall : Forall (λ l, ∃ n, field (heap (add_log (IN_PROCESS, "PARSING UKR.NET CATEGORIES") s2')) l "name"
                                   = Some (VStr n) ∧ lower w n ≠ lower w t) (tsn ++ ukrnet)).
  { st_simpl. rewrite Forall_forall in Hnone. apply Forall_forall. intros l Hl.
    assert (Hcat : ∃ item, is_category w (heap s2') item l).
    { apply elem_of_app in Hl as [Hl|Hl].
      - rewrite Forall_forall in Hn1. destruct (Hn1 l Hl) as (item & Hc).
        exists item. by eapply is_category_le.
      - rewrite Forall_forall in Hn2. exact (Hn2 l Hl). }
    destruct Hcat as (item & _ & Hname & _). eauto. }
  rewrite (bind_ok _ _ _ _ _ (first_named_none w _ _ _ Hall)).
  eexists. split; [reflexivity | discriminate].
Qed.

(** C6.  When discovery succeeds and no discovered category has the
    requested name (compared in lower case), [search_by_category] returns
    [False], which is not the empty list of articles, and raises nothing. *)
Theorem search_by_category_not_found (w : World) (limit : Z)
    (category_name t : string) (s : Scraper)
    (tsn : list loc) (s1 : Scraper) (ukrnet : list loc) (s2 : Scraper) :
  Str.decode_utf8 category_name = Some t →
  tsn_categories w s = (Ok tsn, s1) →
  ukrnet_categories w s1 = (Ok ukrnet, s2) →
  Forall (λ l, ∀ n, field (heap s2) l "name" = Some (VStr n) → lower w n ≠ lower w t)
    (tsn ++ ukrnet) →
  ∃ s', search_by_category w limit category_name s = (Ok RFalse, s') ∧
        RFalse ≠ RArticles [].
Proof. apply search_by_category_none. Qed.

Lemma search_by_category_not_found_witness :
  ∃ s', search_by_category (Demo.world Demo.usual) 10 "no-such-category"
          (Demo.start Demo.usual) = (Ok RFalse, s') ∧
        RFalse ≠ RArticles [].
Proof.
  pose (w := Demo.world Demo.usual).
  pose (r1 := tsn_categories w (Demo.start Demo.usual)).
  pose (r2 := ukrnet_categories w r1.2).
  apply (search_by_category_not_found w 10 "no-such-category" "no-such-category"
           (Demo.start Demo.usual) [1; 2]%nat r1.2 [3]%nat r2.2).
  - reflexivity.
  - vm_compute. reflexivity.
  - vm_compute. reflexivity.
  - repeat constructor; vm_compute; intros n [= <-]; discriminate.
Defined.

(** C9.  In the text search one dictionary is made per category link, before
    its listing page is read; every matching anchor of that page writes into
    it and appends it to the result.  So the records added for the page are
    one and the same object, as many times as there are matches, and that
    object holds the link and the content of the last match, with the
    category named by the link. *)
Theorem search_link_one_record (w : World) (text_searched : string) (link : loc)
    (result : list loc) (s : Scraper) (r : list loc) (s' : Scraper) :
  search_link w text_searched link result s = (Ok r, s') →
  ∃ l page s1,
    field (heap s) link "link" = Some (VStr l) ∧
    get_page_content w (if Str.contains "tsn.ua" l then "tsn.ua" else "ukr.net") l
      (set_heap (heap s ++ [∅]) s) = (Ok page, s1) ∧
    let all_articles := find_all_a (BeautifulSoup w page) text_searched in
    let article := length (heap s) in
    length (heap s') = S (length (heap s)) ∧
    r = (result ++ replicate (length all_articles) article)%list ∧
    ∀ item, last all_articles = Some item →
      field (heap s') article "link" = Some (opt_value (href item)) ∧
      field (heap s') article "category" = field (heap s') link "name" ∧
      ∃ v, first_content_stripped w item s' = (Ok v, s') ∧
           field (heap s') article "content" = Some v.
Proof.
  unfold search_link. intros H.
  apply bind_inv in H as (article & sa & Ha & H). injection Ha as <- <-.
  apply bind_inv in H as (lv & sb & Hb & H). apply getitem_inv in Hb as (-> & Hlv).
  apply bind_inv in H as (l & sc & Hc & H). apply as_str_inv in Hc as (-> & ->).
  st_simpl.
  assert (Hlink : (link < length (heap s))%nat).
  { apply field_is_Some_lt in Hlv as Hlt. rewrite length_app in Hlt. cbn in Hlt.
    destruct (decide (link = length (heap s))) as [->|]; [| lia].
    unfold field in Hlv. rewrite deref_app_new, lookup_empty in Hlv. discriminate. }
  rewrite field_app_l in Hlv by done.
  apply bind_inv in H as (sp & sd & Hd & H).
  assert (Hparse : parse_page_content w
            (if Str.contains "tsn.ua" l then "tsn.ua" else "ukr.net") l
            (set_heap (heap s ++ [∅]) s) = (Ok sp, sd)).
  { cbn [name tsn_resource ukrnet_resource] in Hd. by destruct (Str.contains "tsn.ua" l). }
  clear Hd. apply parse_page_content_inv in Hparse as (page & Hget & -> & Hh & _).
  st_simpl.
  apply bind_inv in H as ([] & se & He & H).
  assert (se = sd) as ->.
  { destruct (re_compile w text_searched); [by injection He | discriminate]. }
  apply text_matches_spec in H as (Hlen & Hr & Hlast);
    [| lia | rewrite Hh, length_app; cbn; lia].
  exists l, page, sd. split; [done |]. split; [done |]. cbn zeta.
  rewrite Hlen, Hh, length_app. cbn [length].
  split; [lia |]. split; done.
Qed.

Lemma search_link_one_record_witness :
  let w := Demo.world Demo.usual in
  let s := (tsn_categories w (Demo.start Demo.usual)).2 in
  let s' := (search_link w "Cup" 1%nat [] s).2 in
  ∃ l page s1,
    field (heap s) 1%nat "link" = Some (VStr l) ∧
    get_page_content w (if Str.contains "tsn.ua" l then "tsn.ua" else "ukr.net") l
      (set_heap (heap s ++ [∅]) s) = (Ok page, s1) ∧
    let all_articles := find_all_a (BeautifulSoup w page) "Cup" in
    let article := length (heap s) in
    length (heap s') = S (length (heap s)) ∧
    [3; 3]%nat = ([] ++ replicate (length all_articles) article)%list ∧
    ∀ item, last all_articles = Some item →
      field (heap s') article "link" = Some (opt_value (href item)) ∧
      field (heap s') article "category" = field (heap s') 1%nat "name" ∧
      ∃ v, first_content_stripped w item s' = (Ok v, s') ∧
           field (heap s') article "content" = Some v.
Proof.
  intros w s s'.
  apply (search_link_one_record w "Cup" 1%nat [] s [3; 3]%nat s').
  vm_compute. reflexivity.
Defined.

(** The run behind the witness: two anchors match 'Cup'; the result names
    the same dictionary twice, and it reads as the second anchor. *)
Example search_link_two_matches :
  let w := Demo.world Demo.usual in
  let s := (tsn_categories w (Demo.start Demo.usual)).2 in
  let r := search_link w "Cup" 1%nat [] s in
  r.1 = Ok [3; 3]%nat ∧
  field (heap r.2) 3 "link" = Some (VStr "https://tsn.ua/sport/cup-final.html") ∧
  field (heap r.2) 3 "content" = Some (VStr "Cup final") ∧
  field (heap r.2) 3 "category" = Some (VStr "Sport").
Proof. vm_compute. done. Qed.

(** C4 (the code departs from it).  When the first candidate of the listing
    leads to an article page without a title element (and without a
    gallery figure), the second pass reads the local [header_text] before
    anything was assigned to it: [get_tsn_articles] raises
    UnboundLocalError and returns no article. *)
Theorem get_tsn_articles_missing_title (w : World) (limit : Z)
    (category_name url : string) (s : Scraper)
    (listing : string) (s1 : Scraper)
    (article : loc) (data : list loc) (img : option (option string)) (s2 : Scraper)
    (link page : string) (s3 : Scraper) :
  get_page_content w (name tsn_resource) url s = (Ok listing, s1) →
  tsn_first_pass w limit category_name
    (select (BeautifulSoup w listing) "div.c-entry-embed a.c-post-img-wrap")
    0 [] None s1 = (Ok (article :: data, img), s2) →
  field (heap s2) article "link" = Some (VStr link) →
  is_Some (field (heap s2) article "category") →
  get_page_content w (name tsn_resource) link s2 = (Ok page, s3) →
  select (BeautifulSoup w page) "div.c-post-meta h1" = [] →
  find_figure (BeautifulSoup w page) = None →
  ∃ s', get_tsn_articles w limit category_name url s = (Raise UnboundLocalError, s').
Proof.
  intros Hlisting Hfirst Hlink [cat Hcat] Hpage Hh1 Hfig.
  unfold get_tsn_articles.
  rewrite (bind_ok _ _ _ _ _ (parse_page_content_ok _ _ _ _ _ _ Hlisting)).
  rewrite (bind_ok _ _ _ _ _ Hfirst). cbn [fst snd tsn_second_pass].
  assert (Hrun : ∃ s', tsn_article w article {| header_text := None; img_src := img |} s2
                       = (Raise UnboundLocalError, s')).
  { unfold tsn_article.
    rewrite (bind_ok _ _ _ _ _ (getitem_ok _ _ _ _ Hlink)). cbn [as_str].
    rewrite bind_run, ret_run.
    rewrite (bind_ok _ _ _ _ _ (parse_page_content_ok _ _ _ _ _ _ Hpage)).
    rewrite Hh1, Hfig. cbn [header_text img_src].
    do 2 rewrite bind_run, ret_run.
    rewrite bind_run. cbn [new_dict].
    apply get_page_content_data in Hpage as (Hheap & _).
    assert (Hlt : (article < length (heap s3))%nat).
    { rewrite Hheap. by eapply field_is_Some_lt. }
    erewrite (bind_ok (getitem article "category")); cycle 1.
    { apply getitem_ok. st_simpl. rewrite field_app_l by done. rewrite Hheap. exact Hcat. }
    rewrite bind_run. cbn [setitem modify]. st_simpl.
    erewrite (bind_ok (getitem article "link")); cycle 1.
    { apply getitem_ok. st_simpl. rewrite alter_new, field_app_l by done.
      rewrite Hheap. exact Hlink. }
    rewrite bind_run. cbn [setitem modify]. st_simpl.
    rewrite bind_run. eexists. reflexivity. }
  destruct Hrun as (s' & Hrun).
  exists s'. rewrite bind_run, (bind_raise _ _ _ _ _ Hrun). reflexivity.
Qed.

Lemma get_tsn_articles_missing_title_witness :
  ∃ s', get_tsn_articles DemoRun.w 10 "sport" "https://tsn.ua/sport" (Demo.start DemoRun.c)
        = (Raise UnboundLocalError, s').
Proof.
  apply (get_tsn_articles_missing_title DemoRun.w 10 "sport" "https://tsn.ua/sport"
           (Demo.start DemoRun.c) Demo.tsn_sport_html DemoRun.listed
           0%nat [] (Some (Some Demo.match_thumbnail)) DemoRun.first_pass
           "https://tsn.ua/sport/match.html" Demo.tsn_match_html DemoRun.fetched).
  - vm_compute. reflexivity.
  - vm_compute. reflexivity.
  - vm_compute. reflexivity.
  - vm_compute. eauto.
  - vm_compute. reflexivity.
  - vm_compute. reflexivity.
  - vm_compute. reflexivity.
Defined.

(** *** Image downloads in the two-pass extraction *)

Section Downloads.

Variable w : World.
Variable limit : Z.


















End Downloads.


Section TwoPass.

Variable w : World.
Variable limit : Z.






End TwoPass.




(** ** Further properties of the scraper *)

(** *** The image store *)

Lemma split_nonempty sep s : Str.split sep s ≠ [].
Proof.
  destruct s as [|c r]; cbn [Str.split]; [done |].
  destruct (Ascii.eqb c sep); [done |]. by destruct (Str.split sep r).
Qed.

Lemma split_absent c sep s :
  mem_char c s = false → Forall (λ x, mem_char c x = false) (Str.split sep s).
Proof.
  induction s as [|a r IH]; cbn [Str.split mem_char]; intros H.
  - by repeat constructor.
  - apply orb_false_iff in H as [Ha Hr]. specialize (IH Hr).
    destruct (Ascii.eqb a sep).
    + by constructor.
    + destruct (Str.split sep r) as [|x xs]; [by repeat constructor;
        cbn [mem_char]; rewrite Ha |].
      apply Forall_cons in IH as [Hx Hxs]. constructor; [| done].
      cbn [mem_char]. by rewrite Ha, Hx.
Qed.

Lemma split_no_sep sep s : Forall (λ x, mem_char sep x = false) (Str.split sep s).
Proof.
  induction s as [|a r IH]; cbn [Str.split].
  - by repeat constructor.
  - destruct (Ascii.eqb a sep) eqn:Ha.
    + by constructor.
    + destruct (Str.split sep r) as [|x xs]; [by repeat constructor;
        cbn [mem_char]; rewrite Ha |].
      apply Forall_cons in IH as [Hx Hxs]. constructor; [| done].
      cbn [mem_char]. by rewrite Ha, Hx.
Qed.

Lemma Forall_last {A} (P : A → Prop) (l : list A) d :
  l ≠ [] → Forall P l → P (List.last l d).
Proof.
  induction l as [|x [|y l] IH]; intros Hne Hall; [done | by inversion Hall |].
  apply Forall_cons in Hall as [_ Hall]. by apply IH.
Qed.

(** The local file name holds neither a path separator nor a query. *)
Lemma local_filename_plain image_url :
  mem_char "/" (local_filename image_url) = false ∧
  mem_char "?" (local_filename image_url) = false.
Proof.
  unfold local_filename.
  set (seg := List.last (Str.split "/" image_url) "").
  assert (Hseg : mem_char "/" seg = false).
  { apply Forall_last; [apply split_nonempty | apply split_no_sep]. }
  pose proof (split_absent "/" "?" seg Hseg) as H1.
  pose proof (split_no_sep "?" seg) as H2.
  destruct (Str.split "?" seg) as [|x xs] eqn:E; [by destruct (split_nonempty "?" seg) |].
  apply Forall_cons in H1 as [H1 _]. apply Forall_cons in H2 as [H2 _]. done.
Qed.

(** What a successful download has done. *)
Lemma download_image_inv (w : World) (image_url : string) (s s' : Scraper) :
  download_image w (Some image_url) s = (Ok tt, s') →
  ∃ bytes,
    requests_get_stream w (clock s) image_url = Some bytes ∧
    local_filename image_url ≠ "" ∧
    mem_char "/" (local_filename image_url) = false ∧
    mem_char "?" (local_filename image_url) = false ∧
    image_storage s' = <[local_filename image_url := bytes]> (image_storage s) ∧
    same_data s s'.
Proof.
  unfold download_image. fold (local_filename image_url).
  destruct (requests_get_stream w (clock s) image_url) as [bytes|]; [| discriminate].
  destruct (String.eqb_spec (local_filename image_url) ""); [discriminate |].
  intros [= <-]. exists bytes.
  destruct (local_filename_plain image_url). by split_and!.
Qed.

(** X1.  A download that succeeds writes the bytes it received under the
    local file name, which is not empty and holds no '/' and no '?', and
    touches neither the other files nor the store nor the collections. *)
Theorem download_image_stores (w : World) (image_url : string) (s s' : Scraper) :
  download_image w (Some image_url) s = (Ok tt, s') →
  ∃ bytes,
    requests_get_stream w (clock s) image_url = Some bytes ∧
    local_filename image_url ≠ "" ∧
    mem_char "/" (local_filename image_url) = false ∧
    mem_char "?" (local_filename image_url) = false ∧
    image_storage s' = <[local_filename image_url := bytes]> (image_storage s) ∧
    same_data s s'.
Proof. apply download_image_inv. Qed.

Lemma download_image_stores_witness :
  let s := Demo.start Demo.usual in
  let s' := (download_image (Demo.world Demo.usual) (Some Demo.match_thumbnail) s).2 in
  ∃ bytes,
    requests_get_stream (Demo.world Demo.usual) (clock s) Demo.match_thumbnail = Some bytes ∧
    local_filename Demo.match_thumbnail ≠ "" ∧
    mem_char "/" (local_filename Demo.match_thumbnail) = false ∧
    mem_char "?" (local_filename Demo.match_thumbnail) = false ∧
    image_storage s' = <[local_filename Demo.match_thumbnail := bytes]> (image_storage s) ∧
    same_data s s'.
Proof.
  intros s s'.
  apply (download_image_stores (Demo.world Demo.usual) Demo.match_thumbnail s s').
  vm_compute. reflexivity.
Defined.

(** X2.  Two images whose URLs end in the same file name share one file:
    after both downloads the directory is as if only the second had been
    made, and the bytes of the first are gone. *)
Theorem download_image_last_write_wins (w : World) (u1 u2 : string)
    (s s1 s2 : Scraper) :
  download_image w (Some u1) s = (Ok tt, s1) →
  download_image w (Some u2) s1 = (Ok tt, s2) →
  local_filename u1 = local_filename u2 →
  ∃ bytes2,
    requests_get_stream w (clock s1) u2 = Some bytes2 ∧
    image_storage s2 = <[local_filename u2 := bytes2]> (image_storage s).
Proof.
  intros H1 H2 Hsame.
  apply download_image_inv in H1 as (b1 & _ & _ & _ & _ & Hst1 & _).
  apply download_image_inv in H2 as (b2 & Hb2 & _ & _ & _ & Hst2 & _).
  exists b2. split; [done |]. rewrite Hst2, Hst1, Hsame. apply insert_insert_eq.
Qed.

Lemma download_image_last_write_wins_witness :
  let w := Demo.world Demo.usual in
  let s := Demo.start Demo.usual in
  let s1 := (download_image w (Some "https://img.tsn.ua/a/photo.jpg?v=1") s).2 in
  let s2 := (download_image w (Some "https://img.tsn.ua/b/photo.jpg") s1).2 in
  ∃ bytes2,
    requests_get_stream w (clock s1) "https://img.tsn.ua/b/photo.jpg" = Some bytes2 ∧
    image_storage s2
    = <[local_filename "https://img.tsn.ua/b/photo.jpg" := bytes2]> (image_storage s).
Proof.
  intros w s s1 s2.
  apply (download_image_last_write_wins w "https://img.tsn.ua/a/photo.jpg?v=1"
           "https://img.tsn.ua/b/photo.jpg" s s1 s2).
  - vm_compute. reflexivity.
  - vm_compute. reflexivity.
  - vm_compute. reflexivity.
Defined.

(** *** The database *)

Lemma heap_set_coll c docs s : heap (set_coll c docs s) = heap s.
Proof. reflexivity. Qed.



Section StoredOnce.

Variable w : World.

Lemma same_id_ext (a a' : dict) (l : list dict) :
  a !! "_id" = a' !! "_id" → existsb (same_id a) l = existsb (same_id a') l.
Proof.
  intros H. induction l as [|b l IH]; [done |].
  cbn [existsb]. rewrite IH. unfold same_id. by rewrite H.
Qed.

Lemma stored_setitem d k v s :
  k ≠ "_id" →
  stored d (set_heap (alter (insert k v) d (heap s)) s) = stored d s ∧
  (id_ok (heap s) d → id_ok (alter (insert k v) d (heap s)) d).
Proof.
  intros Hk. split.
  - unfold stored. st_simpl. apply same_id_ext.
    change (field (alter <[k:=v]> d (heap s)) d "_id" = field (heap s) d "_id").
    apply field_alter_insert_ne. by right.
  - unfold id_ok. by rewrite field_alter_insert_ne by (by right).
Qed.

(** One insertion of a dictionary adds at most one document, and none once
    the collection holds its [_id]. *)
Lemma insert_one_once d s s' :
  insert_one_to_collection w d Articles s = (Ok tt, s') →
  (d < length (heap s))%nat → id_ok (heap s) d →
  id_ok (heap s') d ∧ length (heap s') = length (heap s) ∧
  category_coll s' = category_coll s ∧
  ((articles_coll s' = articles_coll s ∧ (stored d s = true → stored d s' = true)) ∨
   (stored d s = false ∧ stored d s' = true ∧
    length (articles_coll s') = S (length (articles_coll s)))).
Proof.
  unfold insert_one_to_collection, assign_id. intros H Hd Hid. rewrite bind_run in H.
  assert (Hcase : ∃ h n, heap_le (heap s) h ∧ length h = length (heap s) ∧
            (∃ m, field h d "_id" = Some (VObjectId m)) ∧
            (stored d s = true → h = heap s) ∧
            (mongo_write w d Articles ≫= λ ok : bool,
               if ok then logger_info IN_PROCESS "INSERTING DATA TO DB"
               else logger_exception FAILED "ERROR WHEN INSERTING DATA")
              (set_next_oid n (set_heap h s)) = (Ok tt, s')).
  { unfold id_ok, field in Hid. destruct (deref (heap s) d !! "_id") as [v|] eqn:Hv.
    - exists (heap s), (next_oid s). split; [apply heap_le_refl |]. split; [done |].
      split; [| split; [done |]].
      + destruct Hid as [?|[m Hm]]; [done |]. exists m. unfold field. by rewrite Hv.
      + by destruct s.
    - eexists _, _. split; [apply heap_le_alter_id, heap_le_refl |].
      split; [by rewrite length_alter |]. split; [| split; [| exact H]].
      + eexists. by apply field_alter_insert_eq.
      + unfold stored. intros Hst. exfalso. apply existsb_exists in Hst as (b & _ & Hb).
        unfold same_id in Hb. by rewrite Hv in Hb. }
  clear H. destruct Hcase as (h & n & Hle & Hlen & (m & Hm) & Hsame & H).
  rewrite bind_run in H. unfold mongo_write in H. st_simpl.
  destruct (negb (forallb _ _)); [discriminate |].
  set (doc := deref h d) in *.
  assert (Hself : same_id doc doc = true).
  { unfold same_id. unfold field in Hm. fold doc in Hm. rewrite Hm. apply Nat.eqb_refl. }
  cbn [get_coll] in H.
  destruct (mongo_up w _ && negb (existsb (same_id doc) (articles_coll s))) eqn:Hw;
    injection H as <-; st_simpl; cbn [set_coll articles_coll category_coll heap].
  - split; [right; eauto |]. split; [done |]. split; [done |]. right.
    apply andb_true_iff in Hw as [_ Hdup]. apply negb_true_iff in Hdup.
    unfold stored.
    cbn [heap articles_coll add_log emit set_coll set_next_oid set_heap].
    fold doc. split_and!.
    + destruct (existsb (same_id (deref (heap s) d)) (articles_coll s)) eqn:Hst; [| done].
      rewrite <- Hdup. subst doc. by rewrite (Hsame Hst).
    + rewrite existsb_app. cbn [existsb]. by rewrite Hself, orb_true_r.
    + rewrite length_app. cbn. lia.
  - split; [right; eauto |]. split; [done |]. split; [done |]. left.
    split; [done |]. unfold stored.
    cbn [heap articles_coll add_log emit set_coll set_next_oid set_heap]. intros Hst.
    by rewrite (Hsame Hst).
Qed.

Lemma text_matches_stores_once article link all_articles : ∀ result s r s',
  text_matches w article link all_articles result s = (Ok r, s') →
  (article < length (heap s))%nat → id_ok (heap s) article →
  category_coll s' = category_coll s ∧
  (stored article s = true → articles_coll s' = articles_coll s) ∧
  (length (articles_coll s') ≤ S (length (articles_coll s)))%nat.
Proof.
  induction all_articles as [|item rest IH]; intros result s r s' H Hlt Hid.
  - injection H as <- <-. split_and!; [done | done | lia].
  - cbn [text_matches] in H.
    apply bind_inv in H as ([] & sa & Ha & H). injection Ha as <-.
    apply bind_inv in H as (cat & sb & Hb & H). apply getitem_inv in Hb as (-> & _).
    apply bind_inv in H as ([] & sc & Hc & H). injection Hc as <-.
    apply bind_inv in H as (v & sd & Hd & H).
    apply first_content_stripped_inv in Hd as (-> & _).
    apply bind_inv in H as ([] & se & He & H). injection He as <-.
    apply bind_inv in H as ([] & sf & Hf & H). st_simpl.
    destruct (stored_setitem article "link" (opt_value (href item)) s) as [S1 I1]; [done |].
    set (s1 := set_heap (alter <["link":=opt_value (href item)]> article (heap s)) s) in *.
    destruct (stored_setitem article "category" cat s1) as [S2 I2]; [done |].
    set (s2 := set_heap (alter <["category":=cat]> article (heap s1)) s1) in *.
    destruct (stored_setitem article "content" v s2) as [S3 I3]; [done |].
    set (s3 := set_heap (alter <["content":=v]> article (heap s2)) s2) in *.
    change (insert_one_to_collection w article Articles s3 = (Ok (), sf)) in Hf.
    assert (Hlt3 : (article < length (heap s3))%nat).
    { subst s3 s2 s1. st_simpl. by rewrite !length_alter. }
    assert (Hid3 : id_ok (heap s3) article) by (apply I3, I2, I1, Hid).
    assert (Hst3 : stored article s3 = stored article s) by (by rewrite S3, S2, S1).
    apply (insert_one_once _ _ _ Hf Hlt3) in Hid3 as (Hidf & Hlenf & Hcatf & Hcases).
    apply IH in H as (Hcat' & Hkeep & Hlen); [| lia | done].
    assert (Hc3 : articles_coll s3 = articles_coll s ∧ category_coll s3 = category_coll s) by done.
    destruct Hc3 as [Hc3 Hg3]. rewrite Hst3, Hc3, Hg3 in *.
    split; [congruence |].
    destruct Hcases as [[Hsame Hpres]|(Hno & Hyes & Hgrow)].
    + rewrite Hsame in *. split; [| done]. intros Hst. apply Hkeep, Hpres, Hst.
    + split; [by rewrite Hno |]. rewrite (Hkeep Hyes). lia.
Qed.

End StoredOnce.

(** X4.  The text search returns one record per matching anchor but stores
    at most one document per category link: the matches share one
    dictionary, which gets its [_id] at the first insertion, and the
    database refuses an [_id] it already holds. *)
Theorem search_link_stores_once (w : World) (text_searched : string) (link : loc)
    (result : list loc) (s : Scraper) (r : list loc) (s' : Scraper) :
  search_link w text_searched link result s = (Ok r, s') →
  (length (articles_coll s') ≤ S (length (articles_coll s)))%nat ∧
  category_coll s' = category_coll s.
Proof.
  unfold search_link. intros H.
  apply bind_inv in H as (article & sa & Ha & H). injection Ha as <- <-.
  apply bind_inv in H as (lv & sb & Hb & H). apply getitem_inv in Hb as (-> & _).
  apply bind_inv in H as (l & sc & Hc & H). apply as_str_inv in Hc as (-> & ->).
  apply bind_inv in H as (sp & sd & Hd & H).
  assert (Hdata : same_data (set_heap (heap s ++ [∅]) s) sd).
  { destruct (Str.contains _ l);
      apply parse_page_content_inv in Hd as (? & _ & _ & ?); done. }
  destruct Hdata as (Hh & Hc & Ha). st_simpl.
  apply bind_inv in H as ([] & se & He & H).
  assert (se = sd) as ->.
  { destruct (re_compile w text_searched); [by injection He | discriminate]. }
  apply text_matches_stores_once in H as (Hcat & _ & Hlen).
  - rewrite Ha in Hlen. rewrite Hc in Hcat. by split.
  - rewrite Hh, length_app. cbn. lia.
  - left. rewrite Hh. unfold field. rewrite deref_app_new. apply lookup_empty.
Qed.

Lemma search_link_stores_once_witness :
  let w := Demo.world Demo.usual in
  let s := (tsn_categories w (Demo.start Demo.usual)).2 in
  let s' := (search_link w "Cup" 1%nat [] s).2 in
  (length (articles_coll s') ≤ S (length (articles_coll s)))%nat ∧
  category_coll s' = category_coll s.
Proof.
  intros w s s'.
  apply (search_link_stores_once w "Cup" 1%nat [] s [3; 3]%nat s').
  vm_compute. reflexivity.
Defined.

(** *** Discovery and single-pass extraction *)

(** X5.  Category discovery returns one category per anchor that is not a
    script link, in page order; each carries the anchor's stripped text as
    name and a link that starts with 'https:'. *)
Theorem gather_categories_one_per_anchor (w : World) (url rn sel : string)
    (s : Scraper) (cats : list loc) (s' : Scraper) :
  gather_categories w url rn sel s = (Ok cats, s') →
  ∃ page s1,
    get_page_content w rn url s = (Ok page, s1) ∧
    let all_categories := select (BeautifulSoup w page) sel in
    length cats = length (kept all_categories) ∧
    (length cats ≤ length all_categories)%nat ∧
    Forall2 (λ item l,
               field (heap s') l "name" = Some (VStr (strip w (get_text item))) ∧
               field (heap s') l "link"
               = Some (VStr (if Str.startswith (str (href item)) "https:"
                             then str (href item) else "https:" +:+ str (href item))))
      (kept all_categories) cats.
Proof.
  intros H. apply gather_categories_spec in H as (page & s1 & Hget & _ & Hall & _).
  exists page, s1. split; [done |]. cbn zeta.
  split; [symmetry; by eapply Forall2_length |]. split.
  - rewrite <- (Forall2_length _ _ _ Hall). unfold kept. apply filter_length_le.
  - eapply Forall2_impl; [exact Hall |].
    intros item l [_ (_ & Hn & link & Hl & _ & ->)]. by split.
Qed.

Lemma gather_categories_one_per_anchor_witness :
  let w := Demo.world Demo.usual in
  let s' := (gather_categories w "https://tsn.ua/" "tsn.ua" "ul.c-app-nav-more-list li a"
               (Demo.start Demo.usual)).2 in
  ∃ page s1,
    get_page_content w "tsn.ua" "https://tsn.ua/" (Demo.start Demo.usual) = (Ok page, s1) ∧
    let all_categories := select (BeautifulSoup w page) "ul.c-app-nav-more-list li a" in
    length [1; 2]%nat = length (kept all_categories) ∧
    (length [1; 2]%nat ≤ length all_categories)%nat ∧
    Forall2 (λ item l,
               field (heap s') l "name" = Some (VStr (strip w (get_text item))) ∧
               field (heap s') l "link"
               = Some (VStr (if Str.startswith (str (href item)) "https:"
                             then str (href item) else "https:" +:+ str (href item))))
      (kept all_categories) [1; 2]%nat.
Proof.
  intros w s'.
  apply (gather_categories_one_per_anchor w "https://tsn.ua/" "tsn.ua"
           "ul.c-app-nav-more-list li a" (Demo.start Demo.usual) [1; 2]%nat s').
  vm_compute. reflexivity.
Defined.

(** X6.  An anchor without an [href] is not skipped: [str(None)] is 'None',
    so discovery makes a category whose link is 'https:None'. *)
Theorem gather_categories_missing_href (w : World) (url rn sel : string)
    (s : Scraper) (cats : list loc) (s' : Scraper) :
  gather_categories w url rn sel s = (Ok cats, s') →
  ∃ page s1,
    get_page_content w rn url s = (Ok page, s1) ∧
    ∀ item, item ∈ select (BeautifulSoup w page) sel → href item = None →
      ∃ l, l ∈ cats ∧ field (heap s') l "link" = Some (VStr "https:None").
Proof.
  intros H. apply gather_categories_spec in H as (page & s1 & Hget & _ & Hall & _).
  exists page, s1. split; [done |]. intros item Hin Hhref.
  assert (Hkept : item ∈ kept (select (BeautifulSoup w page) sel)).
  { unfold kept. apply list_elem_of_In, filter_In. split; [by apply list_elem_of_In |].
    by rewrite Hhref. }
  apply list_elem_of_lookup in Hkept as [i Hi].
  destruct (Forall2_lookup_l _ _ _ _ _ Hall Hi) as (l & Hl & _ & _ & _ & link & Hf & _ & Hv).
  exists l. split; [by eapply list_elem_of_lookup_2 |].
  rewrite Hf, Hv, Hhref. reflexivity.
Qed.

Lemma gather_categories_missing_href_witness :
  let s' := (gather_categories bare_world "https://tsn.ua/" "tsn.ua" "ul li a"
               (Demo.start Demo.usual)).2 in
  ∃ page s1,
    get_page_content bare_world "tsn.ua" "https://tsn.ua/" (Demo.start Demo.usual)
    = (Ok page, s1) ∧
    ∀ item, item ∈ select (BeautifulSoup bare_world page) "ul li a" → href item = None →
      ∃ l, l ∈ [0%nat] ∧ field (heap s') l "link" = Some (VStr "https:None").
Proof.
  intros s'.
  apply (gather_categories_missing_href bare_world "https://tsn.ua/" "tsn.ua" "ul li a"
           (Demo.start Demo.usual) [0%nat] s').
  vm_compute. reflexivity.
Defined.

(** X7.  [get_ukrnet_articles] never returns more than [limit + 1] articles,
    and none when the limit is negative; every article it returns carries
    the category name it was called with and, as content, the first child of
    its anchor. *)
Theorem get_ukrnet_articles_bound (w : World) (limit : Z) (category_name url : string)
    (s : Scraper) (articles : list loc) (s' : Scraper) :
  get_ukrnet_articles w limit category_name url s = (Ok articles, s') →
  Z.of_nat (length articles) ≤ Z.max 0 (limit + 1) ∧
  (limit < 0 → articles = []) ∧
  ∃ page s1,
    get_page_content w (name ukrnet_resource) url s = (Ok page, s1) ∧
    Forall2 (λ item l,
               field (heap s') l "category" = Some (VStr category_name) ∧
               ∃ c0, head (contents item) = Some c0 ∧
                     field (heap s') l "content" = Some (node_value c0))
      (take (length articles) (select (BeautifulSoup w page) "div.im-tl a")) articles.
Proof.
  intros H.
  apply get_ukrnet_articles_inv in H as (page & s1 & s2 & Hget & Hh1 & Hloop & Hh2).
  apply ukrnet_loop_spec in Hloop as (_ & new & Hnew & Hlen & Hall).
  cbn [app] in Hnew. subst new. replace (limit + 1 - 0) with (limit + 1) in Hlen by lia.
  split; [done |]. split.
  - intros Hneg. destruct articles; [done |]. cbn [length] in Hlen. lia.
  - exists page, s1. split; [done |]. rewrite Hh2.
    eapply Forall2_impl; [exact Hall |]. intros item l [_ (_ & Hc & _ & Hv)]. by split.
Qed.

Lemma get_ukrnet_articles_bound_witness :
  let w := Demo.world Demo.usual in
  let s' := (get_ukrnet_articles w 1 "main" "https://www.ukr.net/news/main.html"
               (Demo.start Demo.usual)).2 in
  Z.of_nat (length [0; 1]%nat) ≤ Z.max 0 (1 + 1) ∧
  (1 < 0 → [0; 1]%nat = []) ∧
  ∃ page s1,
    get_page_content w (name ukrnet_resource) "https://www.ukr.net/news/main.html"
      (Demo.start Demo.usual) = (Ok page, s1) ∧
    Forall2 (λ item l,
               field (heap s') l "category" = Some (VStr "main") ∧
               ∃ c0, head (contents item) = Some c0 ∧
                     field (heap s') l "content" = Some (node_value c0))
      (take (length [0; 1]%nat) (select (BeautifulSoup w page) "div.im-tl a")) [0; 1]%nat.
Proof.
  intros w s'.
  apply (get_ukrnet_articles_bound w 1 "main" "https://www.ukr.net/news/main.html"
           (Demo.start Demo.usual) [0; 1]%nat s').
  vm_compute. reflexivity.
Defined.

(** *** Search by category *)

Lemma first_named_none_inv (w : World) target category_list : ∀ s s',
  first_named w category_list target s = (Ok None, s') →
  s' = s ∧
  Forall (λ l, ∃ n, field (heap s) l "name" = Some (VStr n) ∧ lower w n ≠ target)
    category_list.
Proof.
  induction category_list as [|l0 rest IH]; intros s s' H.
  - by injection H as <-.
  - cbn [first_named] in H.
    apply bind_inv in H as (v & s1 & Hget & H). apply getitem_inv in Hget as (-> & Hv).
    apply bind_inv in H as (n & s2 & Hstr & H). apply as_str_inv in Hstr as (-> & ->).
    destruct (String.eqb_spec (lower w n) target) as [Heq|Hne]; [discriminate |].
    apply IH in H as (-> & Hall). split; [done |]. constructor; eauto.
Qed.

(** X8.  [search_by_category] looks the name up among the categories of
    tsn.ua followed by those of ukr.net, comparing lower-case forms.  It
    returns [False] only when no category matches, and then runs no
    extraction.  When it returns articles, they are the articles of the first
    category that matches, in that order: the result of [get_ukrnet_articles]
    on that category's link when the link contains 'ukr.net', of
    [get_tsn_articles] otherwise, called with the lower-cased input as
    category name. *)
Theorem search_by_category_resolution (w : World) (limit : Z) (category_name : string)
    (s : Scraper) (res : search_result) (s' : Scraper) :
  search_by_category w limit category_name s = (Ok res, s') →
  ∃ t tsn s1 ukrnet s2,
    Str.decode_utf8 category_name = Some t ∧
    tsn_categories w s = (Ok tsn, s1) ∧
    ukrnet_categories w s1 = (Ok ukrnet, s2) ∧
    let differs l := ∃ n, field (heap s2) l "name" = Some (VStr n) ∧
                          lower w n ≠ lower w t in
    match res with
    | RFalse =>
        Forall differs (tsn ++ ukrnet) ∧
        s' = add_log (FAILED, "STOP ITERATION ERROR") s2
    | RArticles articles =>
        ∃ before l after n link s3,
          (tsn ++ ukrnet)%list = (before ++ l :: after)%list ∧
          field (heap s2) l "name" = Some (VStr n) ∧ lower w n = lower w t ∧
          Forall differs before ∧
          field (heap s2) l "link" = Some (VStr link) ∧
          (if Str.contains "ukr.net" link
           then get_ukrnet_articles w limit (lower w t) link
           else get_tsn_articles w limit (lower w t) link) s2 = (Ok articles, s3) ∧
          s' = add_log (SUCCESS, "SEARCH BY CATEGORY") s3
    end.
Proof.
  unfold search_by_category, decode. intros H.
  destruct (Str.decode_utf8 category_name) as [t|]; [| discriminate].
  rewrite bind_run, ret_run in H. cbn zeta in H.
  apply bind_inv in H as (tsn & s1 & Htsn & H).
  apply bind_inv in H as (ukrnet & s2 & Hukr & H).
  apply bind_inv in H as (found & s3 & Hfound & H).
  exists t, tsn, s1, ukrnet, s2. split; [done |]. split; [done |]. split; [done |].
  cbn zeta. destruct found as [l|].
  - apply first_named_first in Hfound as (-> & before & after & n & Heq & Hn & Hl & Hb).
    apply bind_inv in H as (lv & s4 & Hget & H). apply getitem_inv in Hget as (-> & Hlv).
    apply bind_inv in H as (link & s5 & Hstr & H). apply as_str_inv in Hstr as (-> & ->).
    apply bind_inv in H as (articles & s6 & Hrun & H).
    injection H as <- <-. exists before, l, after, n, link, s6. by split_and!.
  - apply first_named_none_inv in Hfound as (-> & Hall).
    by injection H as <- <-.
Qed.

Lemma search_by_category_resolution_witness :
  let w := Demo.world Demo.usual in
  let s := Demo.start Demo.usual in
  let s' := (search_by_category w 0 "MAIN" s).2 in
  ∃ t tsn s1 ukrnet s2,
    Str.decode_utf8 "MAIN" = Some t ∧
    tsn_categories w s = (Ok tsn, s1) ∧
    ukrnet_categories w s1 = (Ok ukrnet, s2) ∧
    let differs l := ∃ n, field (heap s2) l "name" = Some (VStr n) ∧
                          lower w n ≠ lower w t in
    ∃ before l after n link s3,
      (tsn ++ ukrnet)%list = (before ++ l :: after)%list ∧
      field (heap s2) l "name" = Some (VStr n) ∧ lower w n = lower w t ∧
      Forall differs before ∧
      field (heap s2) l "link" = Some (VStr link) ∧
      (if Str.contains "ukr.net" link
       then get_ukrnet_articles w 0 (lower w t) link
       else get_tsn_articles w 0 (lower w t) link) s2 = (Ok [4%nat], s3) ∧
      s' = add_log (SUCCESS, "SEARCH BY CATEGORY") s3.
Proof.
  intros w s s'.
  apply (search_by_category_resolution w 0 "MAIN" s (RArticles [4%nat]) s').
  vm_compute. reflexivity.
Defined.

(** *** Where the process can exit *)

Section Exit.

Variable w : World.
Variable limit : Z.

Lemma exit_never {A} (m : M A) :
  (∀ s s', m s ≠ (Raise SystemExit, s')) → exit_is_http w m.
Proof. intros H s s' Hrun. by destruct (H s s'). Qed.

Lemma exit_ret {A} (a : A) : exit_is_http w (mret a : M A).
Proof. by apply exit_never. Qed.

Lemma exit_raise {A} e : e ≠ SystemExit → exit_is_http w (raise e : M A).
Proof. intros He. apply exit_never. intros s s' [= ->]. done. Qed.

Lemma exit_bind {A B} (m : M A) (f : A → M B) :
  exit_is_http w m → (∀ a, exit_is_http w (f a)) → exit_is_http w (m ≫= f).
Proof.
  intros Hm Hf s s' H. rewrite bind_run in H.
  destruct (m s) as [[a|e] s1] eqn:Hrun.
  - exact (Hf a _ _ H).
  - injection H as -> ->. exact (Hm _ _ Hrun).
Qed.

Lemma exit_new_dict : exit_is_http w new_dict.
Proof. by apply exit_never. Qed.

Lemma exit_setitem d k v : exit_is_http w (setitem d k v).
Proof. by apply exit_never. Qed.

Lemma exit_getitem d k : exit_is_http w (getitem d k).
Proof. apply exit_never. intros s s'. unfold getitem. by destruct (_ !! _). Qed.

Lemma exit_has_key d k : exit_is_http w (has_key d k).
Proof. by apply exit_never. Qed.

Lemma exit_append_item d k v : exit_is_http w (append_item d k v).
Proof.
  apply exit_never. intros s s'. unfold append_item. by destruct (_ !! _) as [[]|].
Qed.

Lemma exit_as_str v : exit_is_http w (as_str v).
Proof. apply exit_never. intros s s'. by destruct v. Qed.

Lemma exit_logger_info a b : exit_is_http w (logger_info a b).
Proof. by apply exit_never. Qed.

Lemma exit_logger_exception a b : exit_is_http w (logger_exception a b).
Proof. by apply exit_never. Qed.

Lemma exit_decode b : exit_is_http w (decode b).
Proof. apply exit_never. intros s s'. unfold decode. by destruct (Str.decode_utf8 b). Qed.

Lemma exit_download_image u : exit_is_http w (download_image w u).
Proof.
  apply exit_never. intros s s'. unfold download_image. destruct u as [u|]; [| done].
  destruct (requests_get_stream w (clock s) u); [| done]. by destruct (String.eqb _ "").
Qed.

Lemma exit_get_page_content rn u : exit_is_http w (get_page_content w rn u).
Proof.
  intros s s'. unfold get_page_content. destruct (String.eqb rn "tsn.ua").
  - unfold get_request_content.
    destruct (requests_get w (clock s) u) eqn:Hget; try discriminate.
    intros [= <-]. exists (trace s), u. by split.
  - destruct (driver_get w (clock s) (sid (driver s)) u) as [src|] eqn:Hnav.
    + by rewrite (get_webdriver_content_ok _ _ _ _ Hnav).
    + by rewrite (get_webdriver_content_fault _ _ _ Hnav).
Qed.

Lemma exit_parse_page_content rn u : exit_is_http w (parse_page_content w rn u).
Proof. apply exit_bind; [apply exit_get_page_content | intros; apply exit_ret]. Qed.

Lemma exit_assign_id d : exit_is_http w (assign_id d).
Proof. apply exit_never. intros s s'. unfold assign_id. by destruct (_ !! _). Qed.

Lemma exit_mongo_write d c : exit_is_http w (mongo_write w d c).
Proof.
  apply exit_never. intros s s'. unfold mongo_write.
  destruct (negb _); [done |]. by destruct (_ && _).
Qed.

Lemma exit_join_contents l : exit_is_http w (join_contents l).
Proof.
  induction l as [|[x|b] rest IH]; cbn [join_contents].
  - apply exit_ret.
  - apply exit_bind; [exact IH | intros; apply exit_ret].
  - by apply exit_raise.
Qed.

Lemma exit_first_content_stripped item : exit_is_http w (first_content_stripped w item).
Proof.
  apply exit_never. intros s s'. unfold first_content_stripped.
  by destruct (contents item) as [|[x|[]] rest].
Qed.

End Exit.

Ltac exit_step :=
  first
    [ apply exit_ret | apply exit_raise; discriminate | apply exit_new_dict
    | apply exit_setitem | apply exit_getitem | apply exit_has_key
    | apply exit_append_item | apply exit_as_str | apply exit_logger_info
    | apply exit_logger_exception | apply exit_decode | apply exit_download_image
    | apply exit_parse_page_content | apply exit_assign_id | apply exit_mongo_write
    | apply exit_join_contents | apply exit_first_content_stripped
    | apply exit_bind; [| intros ?]
    | match goal with
      | |- exit_is_http _ (match ?x with _ => _ end) => destruct x
      | |- exit_is_http _ (if ?b then _ else _) => destruct b
      end ].

Section ExitWhole.

Variable w : World.
Variable limit : Z.

Lemma exit_insert_one_to_collection d c : exit_is_http w (insert_one_to_collection w d c).
Proof. unfold insert_one_to_collection. repeat exit_step. Qed.

Lemma exit_assign_ids data : exit_is_http w (assign_ids data).
Proof. induction data; cbn [assign_ids]; repeat exit_step. exact IHdata. Qed.

Lemma exit_bulk_write data c : exit_is_http w (bulk_write w data c).
Proof. induction data; cbn [bulk_write]; repeat exit_step. exact IHdata. Qed.

Lemma exit_insert_many_to_collection data c :
  exit_is_http w (insert_many_to_collection w data c).
Proof.
  unfold insert_many_to_collection. destruct data; [exit_step |].
  apply exit_bind; [apply exit_assign_ids | intros ?].
  apply exit_bind; [apply exit_bulk_write | intros ?]. repeat exit_step.
Qed.

Lemma exit_gather_loop all_categories : ∀ categories,
  exit_is_http w (gather_loop w all_categories categories).
Proof.
  induction all_categories as [|item rest IH]; intros categories; cbn [gather_loop].
  - apply exit_ret.
  - apply exit_bind; [| intros ?; apply IH]. unfold gather_item. cbn zeta.
    repeat exit_step.
Qed.

Lemma exit_gather_categories u rn sel : exit_is_http w (gather_categories w u rn sel).
Proof.
  unfold gather_categories. cbn zeta.
  apply exit_bind; [apply exit_parse_page_content | intros ?].
  apply exit_bind; [apply exit_gather_loop | intros ?].
  apply exit_bind; [apply exit_insert_many_to_collection | intros ?]. apply exit_ret.
Qed.

Lemma exit_tsn_categories : exit_is_http w (tsn_categories w).
Proof.
  unfold tsn_categories. apply exit_bind; [apply exit_gather_categories | intros ?].
  repeat exit_step.
Qed.

Lemma exit_ukrnet_categories : exit_is_http w (ukrnet_categories w).
Proof.
  unfold ukrnet_categories. apply exit_bind; [apply exit_gather_categories | intros ?].
  repeat exit_step.
Qed.

Lemma exit_first_named category_list target :
  exit_is_http w (first_named w category_list target).
Proof.
  induction category_list as [|l rest IH]; cbn [first_named]; repeat exit_step. exact IH.
Qed.

Lemma exit_ukrnet_loop c all_articles : ∀ count result,
  exit_is_http w (ukrnet_loop w limit c all_articles count result).
Proof.
  induction all_articles as [|item rest IH]; intros count result; cbn [ukrnet_loop].
  - apply exit_ret.
  - destruct (count <=? limit); [| apply exit_ret].
    apply exit_bind; [| intros ?; apply IH]. unfold ukrnet_item.
    repeat first [apply exit_insert_one_to_collection | exit_step].
Qed.

Lemma exit_get_ukrnet_articles c u : exit_is_http w (get_ukrnet_articles w limit c u).
Proof.
  unfold get_ukrnet_articles. cbn zeta.
  apply exit_bind; [apply exit_parse_page_content | intros ?].
  apply exit_bind; [apply exit_ukrnet_loop | intros ?]. repeat exit_step.
Qed.

Lemma exit_tsn_first_pass c all_articles : ∀ count data img,
  exit_is_http w (tsn_first_pass w limit c all_articles count data img).
Proof.
  induction all_articles as [|item rest IH]; intros count data img; cbn [tsn_first_pass].
  - apply exit_ret.
  - destruct (count <=? limit); [| apply exit_ret].
    apply exit_bind; [| intros ?; apply IH]. unfold tsn_listing_item. cbn zeta.
    repeat exit_step.
Qed.

Lemma exit_tsn_second_pass data : ∀ locals result,
  exit_is_http w (tsn_second_pass w data locals result).
Proof.
  induction data as [|article rest IH]; intros locals result; cbn [tsn_second_pass].
  - apply exit_ret.
  - apply exit_bind; [| intros ?; apply IH]. unfold tsn_article. cbn zeta.
    repeat first [apply exit_insert_one_to_collection | exit_step].
Qed.

Lemma exit_get_tsn_articles c u : exit_is_http w (get_tsn_articles w limit c u).
Proof.
  unfold get_tsn_articles. cbn zeta.
  apply exit_bind; [apply exit_parse_page_content | intros ?].
  apply exit_bind; [apply exit_tsn_first_pass | intros ?].
  apply exit_bind; [apply exit_tsn_second_pass | intros ?]. repeat exit_step.
Qed.

Lemma exit_search_by_category category_name :
  exit_is_http w (search_by_category w limit category_name).
Proof.
  unfold search_by_category. cbn zeta.
  apply exit_bind; [apply exit_decode | intros ?].
  apply exit_bind; [apply exit_tsn_categories | intros ?].
  apply exit_bind; [apply exit_ukrnet_categories | intros ?].
  apply exit_bind; [apply exit_first_named | intros [l|]]; [| repeat exit_step].
  apply exit_bind; [apply exit_getitem | intros ?].
  apply exit_bind; [apply exit_as_str | intros link].
  apply exit_bind; [| intros ?; repeat exit_step].
  destruct (Str.contains "ukr.net" link);
    [apply exit_get_ukrnet_articles | apply exit_get_tsn_articles].
Qed.

Lemma exit_text_matches article link all_articles : ∀ result,
  exit_is_http w (text_matches w article link all_articles result).
Proof.
  induction all_articles as [|item rest IH]; intros result; cbn [text_matches].
  - apply exit_ret.
  - repeat first [apply IH | apply exit_insert_one_to_collection | exit_step].
Qed.

Lemma exit_search_links text category_links : ∀ result,
  exit_is_http w (search_links w text category_links result).
Proof.
  induction category_links as [|link rest IH]; intros result; cbn [search_links].
  - apply exit_ret.
  - apply exit_bind; [| intros ?; apply IH]. unfold search_link. cbn zeta.
    repeat first [apply exit_text_matches | exit_step].
Qed.

Lemma exit_search_by_text text : exit_is_http w (search_by_text w text).
Proof.
  unfold search_by_text, website_search_by_text. cbn zeta.
  apply exit_bind; [apply exit_ukrnet_categories | intros ?].
  apply exit_bind; [apply exit_tsn_categories | intros ?].
  apply exit_bind; [| intros ?; repeat exit_step].
  apply exit_bind; [apply exit_decode | intros ?]. apply exit_search_links.
Qed.

End ExitWhole.

(** X9.  [search_by_category] and [search_by_text] end the process only
    through [sys.exit(1)] in the static fetch: whenever one of them raises
    SystemExit, the last request made was a plain HTTP GET and the site
    answered it with an error status. *)
Theorem exit_only_after_http_error (w : World) (limit : Z) :
  (∀ category_name s s',
     search_by_category w limit category_name s = (Raise SystemExit, s') →
     ∃ t u, trace s' = (t ++ [EvHttpGet u false])%list ∧
            requests_get w (length t) u = HttpStatusError) ∧
  (∀ text s s',
     search_by_text w text s = (Raise SystemExit, s') →
     ∃ t u, trace s' = (t ++ [EvHttpGet u false])%list ∧
            requests_get w (length t) u = HttpStatusError).
Proof.
  split.
  - intros c s s'. apply exit_search_by_category.
  - intros t s s'. apply exit_search_by_text.
Qed.

Lemma exit_only_after_http_error_witness :
  let s := Demo.start Demo.usual in
  let s' := (search_by_category bare_world 10 "live" s).2 in
  ∃ t u, trace s' = (t ++ [EvHttpGet u false])%list ∧
         requests_get bare_world (length t) u = HttpStatusError.
Proof.
  intros s s'.
  apply (proj1 (exit_only_after_http_error bare_world 10) "live" s s').
  vm_compute. reflexivity.
Defined.

(** *** The views *)

Lemma try_except_inv {A} (body handler : M A) caught s e s' :
  try_except body caught handler s = (Raise e, s') →
  (body s = (Raise e, s') ∧ caught e = false) ∨
  (∃ e0 s0, body s = (Raise e0, s0) ∧ caught e0 = true ∧ handler s0 = (Raise e, s')).
Proof.
  unfold try_except. destruct (body s) as [[a|e0] s0]; [discriminate |].
  destruct (caught e0) eqn:Hc; [right; eauto |]. intros [= <- <-]. by left.
Qed.

(** X10.  No view lets an exception other than SystemExit through: a request
    to [category_search] or [text_search] is answered with a page, or the
    process exits, and then because a plain HTTP GET met an error status. *)
Theorem views_fail_only_by_exit (w : World) (req : App.request) (s : Scraper)
    (e : exn) (s' : Scraper) :
  App.category_search w req s = (Raise e, s') ∨ App.text_search w req s = (Raise e, s') →
  e = SystemExit ∧
  ∃ t u, trace s' = (t ++ [EvHttpGet u false])%list ∧
         requests_get w (length t) u = HttpStatusError.
Proof.
  unfold App.category_search, App.text_search. intros [H|H].
  - destruct (_ && _); [| discriminate].
    apply try_except_inv in H as [[H Hc]|(e0 & s0 & _ & _ & H)]; [| discriminate].
    destruct e; try discriminate. split; [done |].
    unfold App.form_item in H. destruct (App.form req !! "category"); [| discriminate].
    rewrite bind_run, ret_run, bind_run in H.
    destruct (search_by_category w App.limit s0 s) as [[a|e] s1] eqn:Hs; [discriminate |].
    injection H as -> ->. by eapply exit_search_by_category.
  - destruct (App.is_POST _); [| discriminate].
    apply try_except_inv in H as [[H Hc]|(e0 & s0 & _ & _ & H)]; [| discriminate].
    destruct e; try discriminate. split; [done |].
    unfold App.form_item in H. destruct (App.form req !! "token"); [| discriminate].
    rewrite bind_run, ret_run, bind_run in H.
    destruct (search_by_text w s0 s) as [[a|e] s1] eqn:Hs; [discriminate |].
    injection H as -> ->. by eapply exit_search_by_text.
Qed.

Lemma views_fail_only_by_exit_witness :
  let req := {| App.method := App.POST; App.form := {[ "category" := "live" ]} |} in
  let s := Demo.start Demo.usual in
  let s' := (App.category_search bare_world req s).2 in
  SystemExit = SystemExit ∧
  ∃ t u, trace s' = (t ++ [EvHttpGet u false])%list ∧
         requests_get bare_world (length t) u = HttpStatusError.
Proof.
  intros req s s'.
  apply (views_fail_only_by_exit bare_world req s SystemExit s').
  left. vm_compute. reflexivity.
Defined.

(** X11.  A category that does not exist is not an error for the view: the
    result page is rendered, with [False] as its content. *)
Theorem category_search_unknown (w : World) (req : App.request)
    (category_name t : string) (s : Scraper)
    (tsn : list loc) (s1 : Scraper) (ukrnet : list loc) (s2 : Scraper) :
  App.method req = App.POST →
  App.form req !! "category" = Some category_name → category_name ≠ "" →
  Str.decode_utf8 category_name = Some t →
  tsn_categories w s = (Ok tsn, s1) →
  ukrnet_categories w s1 = (Ok ukrnet, s2) →
  Forall (λ l, ∀ n, field (heap s2) l "name" = Some (VStr n) → lower w n ≠ lower w t)
    (tsn ++ ukrnet) →
  ∃ s', App.category_search w req s
        = (Ok (App.Rendered "news_result.html" (Some RFalse)), s').
Proof.
  intros Hpost Hform Hne Hdec Htsn Hukr Hnone.
  destruct (search_by_category_none w App.limit category_name t s tsn s1 ukrnet s2)
    as (s' & Hrun & _); try done.
  exists s'. unfold App.category_search, App.input_required, App.form_item, try_except.
  rewrite Hpost, Hform. cbn [App.is_POST andb].
  destruct (String.eqb_spec category_name ""); [done |]. cbn [negb].
  by rewrite bind_run, ret_run, (bind_ok _ _ _ _ _ Hrun).
Qed.

Lemma category_search_unknown_witness :
  let w := Demo.world Demo.usual in
  let req := {| App.method := App.POST; App.form := {[ "category" := "weather" ]} |} in
  ∃ s', App.category_search w req (Demo.start Demo.usual)
        = (Ok (App.Rendered "news_result.html" (Some RFalse)), s').
Proof.
  intros w req.
  apply (category_search_unknown w req "weather" "weather" (Demo.start Demo.usual)
           [1; 2]%nat (tsn_categories w (Demo.start Demo.usual)).2
           [3]%nat (ukrnet_categories w (tsn_categories w (Demo.start Demo.usual)).2).2).
  - reflexivity.
  - vm_compute. reflexivity.
  - discriminate.
  - vm_compute. reflexivity.
  - vm_compute. reflexivity.
  - vm_compute. reflexivity.
  - repeat constructor; vm_compute; intros n [= <-]; discriminate.
Defined.

(** *** Two-pass extraction *)

Section TwoPassSpec.

Variable w : World.
Variable limit : Z.

Lemma is_candidate_le h h' c l : heap_le h h' → is_candidate h c l → is_candidate h' c l.
Proof.
  intros [L F] (Hl & Hc & link & Hk & He).
  split; [lia |]. split; [by rewrite F |]. exists link. by rewrite F.
Qed.

Lemma download_image_heap u s r s' : download_image w u s = (r, s') → heap s' = heap s.
Proof.
  unfold download_image. destruct u as [u|]; [| by intros [= <- <-]].
  destruct (requests_get_stream w (clock s) u); [| by intros [= <- <-]].
  destruct (String.eqb _ ""); by intros [= <- <-].
Qed.

Lemma tsn_listing_item_spec c item data s r s' :
  tsn_listing_item w c item data s = (Ok r, s') →
  heap_le (heap s) (heap s') ∧
  ∃ new, r.1 = (data ++ new)%list ∧ (length new ≤ 1)%nat ∧
         Forall (λ l, (length (heap s) ≤ l)%nat ∧ is_candidate (heap s') c l) new.
Proof.
  unfold tsn_listing_item. rewrite bind_run. cbn [new_dict]. cbn zeta. intros H.
  destruct (find_img item) as [src|]; [| discriminate]. rewrite bind_run, ret_run in H.
  destruct (href item) as [link|] eqn:Hhref; [| discriminate].
  rewrite bind_run, ret_run in H.
  destruct (Str.endswith link ".html") eqn:Hhtml; cycle 1.
  { injection H as <- <-. st_simpl. split; [apply heap_le_app |].
    exists []. rewrite app_nil_r. split; [done |]. split; [cbn; lia | constructor]. }
  rewrite bind_run in H. cbn [setitem modify opt_value] in H. st_simpl.
  rewrite alter_new in H.
  apply bind_inv in H as ([] & s1 & Himg & H).
  assert (Hs1 : ∃ d1, heap s1 = (heap s ++ [d1])%list ∧
                      d1 !! "link" = Some (VStr link) ∧ d1 !! "category" = None).
  { destruct (truthy src); [destruct (negb _) |].
    - apply bind_inv in Himg as ([] & s0 & Hset & Hdl). injection Hset as <-.
      apply download_image_heap in Hdl. st_simpl. rewrite alter_new in Hdl.
      eexists. split; [exact Hdl |]. by simplify_map_eq.
    - injection Himg as <-. st_simpl. eexists. split; [done |]. by simplify_map_eq.
    - injection Himg as <-. st_simpl. eexists. split; [done |]. by simplify_map_eq. }
  destruct Hs1 as (d1 & Hh1 & Hl1 & _).
  rewrite bind_run in H. cbn [setitem modify] in H. injection H as <- <-. st_simpl.
  rewrite Hh1, alter_new. split; [apply heap_le_app |].
  exists [length (heap s)]. split; [done |]. split; [done |].
  constructor; [| constructor]. split; [done |].
  unfold is_candidate, field. rewrite length_app, deref_app_new. cbn [length].
  split; [lia |]. split; [by simplify_map_eq |]. exists link. by simplify_map_eq.
Qed.

Lemma tsn_first_pass_spec c all_articles : ∀ count data img s r s',
  tsn_first_pass w limit c all_articles count data img s = (Ok r, s') →
  heap_le (heap s) (heap s') ∧
  ∃ new, r.1 = (data ++ new)%list ∧
         Z.of_nat (length new) ≤ Z.max 0 (limit + 1 - count) ∧
         Forall (λ l, (length (heap s) ≤ l)%nat ∧ is_candidate (heap s') c l) new.
Proof.
  induction all_articles as [|item rest IH]; intros count data img s r s' H.
  - injection H as <- <-. split; [apply heap_le_refl |].
    exists []. cbn. rewrite app_nil_r. split; [done |]. split; [lia | constructor].
  - cbn [tsn_first_pass] in H. destruct (Z.leb_spec count limit) as [Hc|Hc].
    + apply bind_inv in H as (r1 & s1 & Hitem & Hrest).
      apply tsn_listing_item_spec in Hitem as (Hle1 & new1 & Hr1 & Hlen1 & Hall1).
      apply IH in Hrest as (Hle2 & new2 & Hr2 & Hlen2 & Hall2).
      split; [by eapply heap_le_trans |].
      exists (new1 ++ new2)%list. rewrite Hr2, Hr1, app_assoc. split; [done |].
      split; [rewrite length_app; lia |]. apply Forall_app. split.
      * eapply Forall_impl; [exact Hall1 |]. intros l [Hl Hcand].
        split; [done |]. by eapply is_candidate_le.
      * eapply Forall_impl; [exact Hall2 |]. intros l [Hl Hcand].
        split; [| done]. destruct Hle1 as [L _]. lia.
    + injection H as <- <-. split; [apply heap_le_refl |].
      exists []. cbn. rewrite app_nil_r. split; [done |]. split; [lia | constructor].
Qed.

End TwoPassSpec.

Section SecondPassSpec.

Variable w : World.

Lemma join_contents_inv l : ∀ s t s', join_contents l s = (Ok t, s') → s' = s.
Proof.
  induction l as [|[x|b] rest IH]; intros s t s' H; cbn [join_contents] in H.
  - by injection H as _ <-.
  - apply bind_inv in H as (r & s1 & Hr & H). apply IH in Hr as ->. by injection H as _ <-.
  - discriminate.
Qed.

Lemma append_item_new (h : list dict) (D : dict) k l v s :
  heap s = (h ++ [D])%list → D !! k = Some (VList l) →
  append_item (length h) k v s
  = (Ok tt, set_heap (h ++ [<[k := VList (l ++ [v])]> D]) s).
Proof.
  intros Hh HD. unfold append_item. rewrite Hh, deref_app_new, HD.
  by rewrite alter_new.
Qed.

Lemma tsn_article_spec c article locals s r s' :
  tsn_article w article locals s = (Ok r, s') →
  is_candidate (heap s) c article →
  heap_le (heap s) (heap s') ∧ (length (heap s) ≤ r.1)%nat ∧
  is_tsn_article (heap s') c r.1.
Proof.
  unfold tsn_article. cbn zeta. intros H (Hlt & Hcat & link & Hlink & Hhtml).
  rewrite (bind_ok _ _ _ _ _ (getitem_ok _ _ _ _ Hlink)) in H. cbn [as_str] in H.
  rewrite bind_run, ret_run in H.
  apply bind_inv in H as (sp & s1 & Hparse & H).
  apply parse_page_content_inv in Hparse as (page & _ & -> & Hh1 & _).
  apply bind_inv in H as (ht & s2 & Hhead & H).
  assert (s2 = s1) as ->.
  { destruct (select _ "div.c-post-meta h1") as [|h0 hs]; [by injection Hhead |].
    apply bind_inv in Hhead as (t & s3 & Hj & Hr). apply join_contents_inv in Hj as ->.
    by injection Hr. }
  clear Hhead. apply bind_inv in H as (img & s2 & Himg & H).
  assert (Hh2 : heap s2 = heap s1).
  { destruct (find_figure _) as [fig|]; [| by injection Himg as _ <-].
    destruct (fig_startswith fig) as [[]|]; [by injection Himg as _ <- | | discriminate].
    destruct (fig_find_img fig) as [src|]; [| discriminate].
    apply bind_inv in Himg as ([] & s3 & Hdl & Hr). apply download_image_heap in Hdl.
    injection Hr as _ <-. done. }
  clear Himg. rewrite bind_run in H. cbn [new_dict] in H.
  set (h := heap s2) in *.
  assert (Hart : ∀ k D, field (h ++ [D]) article k = field (heap s) article k).
  { intros k D. rewrite field_app_l by (subst h; congruence). subst h. congruence. }
  erewrite (bind_ok (getitem article "category")) in H; cycle 1.
  { apply getitem_ok. st_simpl. rewrite Hart. exact Hcat. }
  rewrite bind_run in H. cbn [setitem modify] in H. st_simpl. rewrite alter_new in H.
  erewrite (bind_ok (getitem article "link")) in H; cycle 1.
  { apply getitem_ok. st_simpl. rewrite Hart. exact Hlink. }
  rewrite bind_run in H. cbn [setitem modify] in H. st_simpl. rewrite alter_new in H.
  destruct ht as [title|]; [| discriminate]. rewrite bind_run, ret_run in H.
  do 3 (rewrite bind_run in H; cbn [setitem modify] in H; st_simpl; rewrite alter_new in H).
  rewrite bind_run in H. cbn [has_key gets] in H. st_simpl.
  apply bind_inv in H as ([] & s3 & Hcap & H).
  assert (Hs3 : ∃ D imgs, heap s3 = (h ++ [D])%list ∧
            D !! "category" = Some (VStr c) ∧ D !! "link" = Some (VStr link) ∧
            D !! "title" = Some (VStr title) ∧
            (∃ x, D !! "content" = Some (VStr x)) ∧
            D !! "images" = Some (VList imgs) ∧ (length imgs ≤ 1)%nat).
  { destruct (bool_decide _).
    - apply bind_inv in Hcap as (v & s4 & Hget & Hcap). apply getitem_inv in Hget as (-> & _).
      apply bind_inv in Hcap as (x & s4 & Hstr & Hcap). apply as_str_inv in Hstr as (-> & ->).
      erewrite append_item_new in Hcap; [| st_simpl; reflexivity | by simplify_map_eq].
      injection Hcap as <-. st_simpl. eexists _, _. split; [reflexivity |].
      split_and!; try (by simplify_map_eq);
        first [eexists; by simplify_map_eq | cbn; lia].
    - injection Hcap as <-. st_simpl. eexists _, _. split; [reflexivity |].
      split_and!; try (by simplify_map_eq);
        first [eexists; by simplify_map_eq | cbn; lia]. }
  destruct Hs3 as (D & imgs & Hh3 & Dc & Dl & Dt & Dx & Di & Dn).
  apply bind_inv in H as ([] & s4 & Hfig & H).
  assert (Hs4 : ∃ D' imgs', heap s4 = (h ++ [D'])%list ∧
            D' !! "category" = Some (VStr c) ∧ D' !! "link" = Some (VStr link) ∧
            D' !! "title" = Some (VStr title) ∧
            (∃ x, D' !! "content" = Some (VStr x)) ∧
            D' !! "images" = Some (VList imgs') ∧ (length imgs' ≤ 2)%nat).
  { destruct (find_figure _); [destruct img as [v|]; [| discriminate] |].
    - erewrite append_item_new in Hfig; [| exact Hh3 | exact Di].
      injection Hfig as <-. st_simpl. eexists _, _. split; [reflexivity |].
      destruct Dx as [x Dx].
      split_and!; try (by simplify_map_eq); [eexists; by simplify_map_eq |].
      rewrite length_app. cbn. lia.
    - injection Hfig as <-. exists D, imgs. split_and!; try done. lia. }
  destruct Hs4 as (D' & imgs' & Hh4 & Dc' & Dl' & Dt' & Dx' & Di' & Dn').
  apply bind_inv in H as ([] & s5 & Hins & H). injection H as <- <-. cbn [fst].
  apply insert_one_to_collection_spec in Hins as (Hle & Hlen & _).
  assert (Hle0 : heap_le (heap s) (heap s4)).
  { rewrite Hh4. replace (heap s) with h by (subst h; congruence). apply heap_le_app. }
  split; [by eapply heap_le_trans |].
  split; [subst h; rewrite Hh2, Hh1; done |].
  assert (Hn : (length h < length (heap s4))%nat) by (rewrite Hh4, length_app; cbn; lia).
  destruct Hle as [_ Hf].
  unfold is_tsn_article. rewrite !Hf by done. rewrite Hh4. unfold field.
  rewrite deref_app_new. split; [lia |]. split; [done |].
  split; [by exists link |]. split; [by exists title |]. split; [done |]. by exists imgs'.
Qed.

Lemma tsn_second_pass_spec c data : ∀ locals result s r s',
  tsn_second_pass w data locals result s = (Ok r, s') →
  Forall (is_candidate (heap s) c) data →
  heap_le (heap s) (heap s') ∧
  ∃ new, r = (result ++ new)%list ∧ length new = length data ∧
         Forall (is_tsn_article (heap s') c) new.
Proof.
  induction data as [|article rest IH]; intros locals result s r s' H Hcand.
  - injection H as <- <-. split; [apply heap_le_refl |].
    exists []. by rewrite app_nil_r.
  - cbn [tsn_second_pass] in H. apply Forall_cons in Hcand as [Ha Hrest].
    apply bind_inv in H as (r1 & s1 & Hart & H).
    apply (tsn_article_spec c) in Hart as (Hle1 & _ & Hnew); [| done].
    apply IH in H as (Hle2 & new & -> & Hlen & Hall).
    2:{ eapply Forall_impl; [exact Hrest |]. intros l. by apply is_candidate_le. }
    split; [by eapply heap_le_trans |].
    exists (r1.1 :: new). rewrite <- app_assoc. split; [done |].
    split; [cbn; lia |]. constructor; [| done].
    destruct Hnew as (Hl & Hc & (link & Hk & He) & (t & Ht) & (x & Hx) & (imgs & Hi & Hn)).
    destruct Hle2 as [L F].
    split; [lia |]. rewrite !F by done. split; [done |].
    split; [by exists link |]. split; [by exists t |]. split; [by exists x |].
    by exists imgs.
Qed.

End SecondPassSpec.

(** X12.  [get_tsn_articles] returns at most [limit + 1] articles.  Each
    one carries the category name passed in, a link that ends in '.html', a
    title, a content string and a list of at most two images. *)
Theorem get_tsn_articles_articles (w : World) (limit : Z) (category_name url : string)
    (s : Scraper) (articles : list loc) (s' : Scraper) :
  get_tsn_articles w limit category_name url s = (Ok articles, s') →
  Z.of_nat (length articles) ≤ Z.max 0 (limit + 1) ∧
  Forall (is_tsn_article (heap s') category_name) articles.
Proof.
  unfold get_tsn_articles. intros H.
  apply bind_inv in H as (sp & s1 & Hparse & H).
  apply bind_inv in H as (r & s2 & Hfirst & H).
  apply bind_inv in H as (res & s3 & Hsecond & H). injection H as <- <-.
  apply (tsn_first_pass_spec w limit category_name) in Hfirst
    as (_ & data & Hdata & Hlen & Hcand).
  cbn [app] in Hdata. rewrite Hdata in Hsecond.
  apply (tsn_second_pass_spec w category_name) in Hsecond as (_ & new & -> & Hn & Hall).
  - cbn [app]. st_simpl. split; [| done]. rewrite Hn. lia.
  - eapply Forall_impl; [exact Hcand |]. by intros l [_ ?].
Qed.

Lemma get_tsn_articles_articles_witness :
  let w := Demo.world Demo.usual in
  let s' := (get_tsn_articles w 10 "sport" "https://tsn.ua/sport" (Demo.start Demo.usual)).2 in
  Z.of_nat (length [1%nat]) ≤ Z.max 0 (10 + 1) ∧
  Forall (is_tsn_article (heap s') "sport") [1%nat].
Proof.
  intros w s'.
  apply (get_tsn_articles_articles w 10 "sport" "https://tsn.ua/sport"
           (Demo.start Demo.usual) [1%nat] s').
  vm_compute. reflexivity.
Defined.

Section ListingDownloads.

Variable w : World.
Variable limit : Z.

Lemma download_image_trace u s r s' :
  download_image w (Some u) s = (r, s') →
  ∃ ok, trace s' = (trace s ++ [EvImageGet u ok])%list.
Proof.
  unfold download_image. destruct (requests_get_stream w (clock s) u).
  - destruct (String.eqb _ ""); intros [= <- <-]; by exists true.
  - intros [= <- <-]. by exists false.
Qed.

Lemma truthy_inv src : truthy src = true → ∃ u, src = Some u ∧ u ≠ "".
Proof.
  destruct src as [u|]; [| discriminate]. cbn [truthy]. intros H. exists u.
  split; [done |]. intros ->. discriminate.
Qed.

Lemma tsn_listing_item_trace c item data s r s' :
  tsn_listing_item w c item data s = (r, s') →
  ∃ evs, trace s' = (trace s ++ evs)%list ∧ Forall good_download evs ∧
         (length evs ≤ 1)%nat.
Proof.
  assert (Hnone : ∀ s0 : Scraper, trace s0 = trace s →
            ∃ evs, trace s0 = (trace s ++ evs)%list ∧ Forall good_download evs ∧
                   (length evs ≤ 1)%nat).
  { intros s0 ->. exists []. rewrite app_nil_r. split; [done |]. split; [constructor | cbn; lia]. }
  unfold tsn_listing_item. rewrite bind_run. cbn [new_dict]. cbn zeta.
  destruct (find_img item) as [src|]; [| intros [= <- <-]; by apply Hnone].
  rewrite bind_run, ret_run.
  destruct (href item) as [link|]; [| intros [= <- <-]; by apply Hnone].
  rewrite bind_run, ret_run.
  destruct (Str.endswith link ".html"); [| intros [= <- <-]; by apply Hnone].
  rewrite bind_run. cbn [setitem modify]. rewrite bind_run.
  destruct (truthy src) eqn:Htruthy;
    [| rewrite ret_run, bind_run; cbn [setitem modify]; intros [= <- <-]; by apply Hnone].
  destruct (negb _) eqn:Hgood;
    [| rewrite ret_run, bind_run; cbn [setitem modify]; intros [= <- <-]; by apply Hnone].
  apply truthy_inv in Htruthy as (u & -> & Hu). cbn [str] in Hgood.
  apply negb_true_iff, orb_false_iff in Hgood as [Hdata Hjs].
  rewrite bind_run. cbn [setitem modify].
  destruct (download_image w (Some u) _) as [[[]|e] sd] eqn:Hdl;
    apply download_image_trace in Hdl as (ok & Hdl); st_simpl.
  - rewrite bind_run. cbn [setitem modify]. intros [= <- <-]. st_simpl.
    exists [EvImageGet u ok]. split; [done |]. split; [| done]. by repeat constructor.
  - intros [= <- <-]. exists [EvImageGet u ok]. split; [done |].
    split; [| done]. by repeat constructor.
Qed.

End ListingDownloads.

(** X13.  During the first pass over a tsn.ua listing the only requests made
    are image downloads, at most one per listing item, and never for an empty
    address, an inline 'data:image' URI or a 'javascript' pseudo-URL; this
    holds whether the pass returns or raises. *)
Theorem tsn_first_pass_downloads (w : World) (limit : Z) (category_name : string)
    (all_articles : list tag) :
  ∀ count data img s r s',
    tsn_first_pass w limit category_name all_articles count data img s = (r, s') →
    ∃ evs, trace s' = (trace s ++ evs)%list ∧ Forall good_download evs ∧
           (length evs ≤ length all_articles)%nat.
Proof.
  induction all_articles as [|item rest IH]; intros count data img s r s' H.
  - injection H as <- <-. exists []. rewrite app_nil_r. by repeat split.
  - cbn [tsn_first_pass] in H. destruct (count <=? limit).
    + rewrite bind_run in H.
      destruct (tsn_listing_item w category_name item data s) as [[r1|e] s1] eqn:Hitem;
        apply tsn_listing_item_trace in Hitem as (evs1 & Ht1 & Hg1 & Hn1).
      * apply IH in H as (evs2 & Ht2 & Hg2 & Hn2).
        exists (evs1 ++ evs2)%list. rewrite Ht2, Ht1, app_assoc. split; [done |].
        split; [by apply Forall_app |]. rewrite length_app. cbn [length]. lia.
      * injection H as <- <-. exists evs1. split; [done |]. split; [done |].
        cbn [length]. lia.
    + injection H as <- <-. exists []. rewrite app_nil_r.
      split; [done |]. split; [constructor | cbn; lia].
Qed.

Lemma tsn_first_pass_downloads_witness :
  let w := Demo.world Demo.usual in
  let items := select Demo.tsn_sport "div.c-entry-embed a.c-post-img-wrap" in
  let s := Demo.start Demo.usual in
  let s' := (tsn_first_pass w 10 "sport" items 0 [] None s).2 in
  ∃ evs, trace s' = (trace s ++ evs)%list ∧ Forall good_download evs ∧
         (length evs ≤ length items)%nat.
Proof.
  intros w items s s'.
  apply (tsn_first_pass_downloads w 10 "sport" items 0 [] None s
           (tsn_first_pass w 10 "sport" items 0 [] None s).1 s').
  vm_compute. reflexivity.
Defined.

(** *** Discovery fails only with the fetch *)

Section DiscoveryTotal.

Variable w : World.

Lemma gather_item_encodable item categories s :
  ∃ D new, gather_item w item categories s
           = (Ok (categories ++ new)%list, set_heap (heap s ++ [D]) s) ∧
           (new = [] ∨ (new = [length (heap s)] ∧ encodable_doc D)).
Proof.
  unfold gather_item. rewrite bind_run. cbn [new_dict]. cbn zeta.
  destruct (Str.startswith (str (href item)) "javascript").
  - exists ∅, []. rewrite app_nil_r. split; [done | by left].
  - do 2 (rewrite bind_run; cbn [setitem modify]; st_simpl; rewrite alter_new).
    eexists _, [length (heap s)]. split; [reflexivity |]. right. split; [done |].
    repeat (apply map_Forall_insert_2; [done |]). apply map_Forall_empty.
Qed.

Lemma gather_loop_encodable all_categories : ∀ categories s,
  Forall (λ l, (l < length (heap s))%nat ∧ encodable_doc (deref (heap s) l)) categories →
  ∃ h' r, gather_loop w all_categories categories s = (Ok r, set_heap h' s) ∧
          Forall (λ l, (l < length h')%nat ∧ encodable_doc (deref h' l)) r.
Proof.
  induction all_categories as [|item rest IH]; intros categories s Hall.
  - exists (heap s), categories. split; [by destruct s | done].
  - cbn [gather_loop].
    destruct (gather_item_encodable item categories s) as (D & new & Hitem & Hnew).
    rewrite (bind_ok _ _ _ _ _ Hitem).
    assert (Hold : Forall (λ l, (l < length (heap s ++ [D]))%nat ∧
                                encodable_doc (deref (heap s ++ [D]) l)) categories).
    { eapply Forall_impl; [exact Hall |]. intros l [Hl He].
      rewrite length_app, deref_app_l by done. split; [lia | done]. }
    destruct (IH (categories ++ new)%list (set_heap (heap s ++ [D]) s))
      as (h' & r & Hrun & Hr).
    { st_simpl. apply Forall_app. split; [exact Hold |].
      destruct Hnew as [->|[-> HD]]; [constructor |]. constructor; [| done].
      rewrite deref_app_new, length_app. split; [cbn; lia | done]. }
    exists h', r. by rewrite Hrun.
Qed.

Lemma assign_id_encodable d s :
  ∃ h' n, assign_id d s = (Ok tt, set_next_oid n (set_heap h' s)) ∧
          length h' = length (heap s) ∧
          ∀ l, encodable_doc (deref (heap s) l) → encodable_doc (deref h' l).
Proof.
  unfold assign_id. destruct (deref (heap s) d !! "_id").
  - exists (heap s), (next_oid s). split; [by destruct s | done].
  - eexists _, _. split; [reflexivity |]. split; [by rewrite length_alter |].
    intros l Hl. destruct (decide (d = l)) as [<-|]; [| by rewrite deref_alter_ne].
    destruct (decide (d < length (heap s))%nat).
    + rewrite deref_alter_eq by done. by apply map_Forall_insert_2.
    + unfold deref. rewrite list_lookup_alter_eq, lookup_ge_None_2 by lia.
      apply map_Forall_empty.
Qed.

Lemma assign_ids_encodable data : ∀ s,
  ∃ h' n, assign_ids data s = (Ok tt, set_next_oid n (set_heap h' s)) ∧
          length h' = length (heap s) ∧
          ∀ l, encodable_doc (deref (heap s) l) → encodable_doc (deref h' l).
Proof.
  induction data as [|d rest IH]; intros s.
  - exists (heap s), (next_oid s). split; [by destruct s | done].
  - cbn [assign_ids]. destruct (assign_id_encodable d s) as (h1 & n1 & Hrun1 & Hlen1 & He1).
    rewrite (bind_ok _ _ _ _ _ Hrun1).
    destruct (IH (set_next_oid n1 (set_heap h1 s))) as (h2 & n2 & Hrun2 & Hlen2 & He2).
    exists h2, n2. rewrite Hrun2. st_simpl. split; [done |]. split; [congruence | auto].
Qed.

Lemma bulk_write_ok c data : ∀ s,
  Forall (λ l, encodable_doc (deref (heap s) l)) data →
  ∃ b s', bulk_write w data c s = (Ok b, s').
Proof.
  induction data as [|d rest IH]; intros s Hall; [by eexists _, _ |].
  apply Forall_cons in Hall as [Hd Hrest]. cbn [bulk_write]. rewrite bind_run.
  destruct (mongo_write w d c s) as [[ok|e] s1] eqn:Hw.
  - destruct ok; [| by eexists _, _]. apply IH.
    apply mongo_write_heap in Hw. by rewrite Hw.
  - exfalso. revert Hw. unfold mongo_write. rewrite encodable_dict by exact Hd.
    cbn [negb]. by destruct (_ && _).
Qed.

(** Once the index page is fetched, nothing in category discovery can
    raise. *)
Lemma gather_categories_ok url rn sel s page s1 :
  get_page_content w rn url s = (Ok page, s1) →
  ∃ cats s', gather_categories w url rn sel s = (Ok cats, s').
Proof.
  intros Hget. unfold gather_categories.
  rewrite (bind_ok _ _ _ _ _ (parse_page_content_ok _ _ _ _ _ _ Hget)).
  destruct (gather_loop_encodable (select (BeautifulSoup w page) sel) [] s1)
    as (h' & r & Hloop & Hr); [constructor |].
  rewrite (bind_ok _ _ _ _ _ Hloop). rewrite bind_run.
  assert (Hins : ∃ s2, insert_many_to_collection w r Categories (set_heap h' s1)
                       = (Ok tt, s2)).
  { unfold insert_many_to_collection. destruct r as [|l0 r0]; [by eexists |].
    set (data := l0 :: r0) in *. clearbody data.
    destruct (assign_ids_encodable data (set_heap h' s1)) as (h2 & n & Hids & _ & He).
    rewrite (bind_ok _ _ _ _ _ Hids), bind_run.
    destruct (bulk_write_ok Categories data (set_next_oid n (set_heap h2 (set_heap h' s1))))
      as (b & s2 & Hbulk).
    { st_simpl. eapply Forall_impl; [exact Hr |]. intros l [_ Hl]. by apply He. }
    rewrite Hbulk. destruct b; by eexists. }
  destruct Hins as (s2 & ->). by eexists _, _.
Qed.

End DiscoveryTotal.

(** X14.  Category discovery can fail only in the fetch: once the index page
    has been fetched, [gather_categories] returns, whatever the page holds
    (no anchors, anchors without [href]) and whether or not the database
    accepts the categories. *)
Theorem gather_categories_fails_only_in_fetch (w : World) (url rn sel : string)
    (s : Scraper) (page : string) (s1 : Scraper) :
  get_page_content w rn url s = (Ok page, s1) →
  ∃ cats s', gather_categories w url rn sel s = (Ok cats, s').
Proof. apply gather_categories_ok. Qed.

Lemma gather_categories_fails_only_in_fetch_witness :
  let w := offline bare_world in
  ∃ cats s', gather_categories w "https://tsn.ua/" "tsn.ua" "ul li a"
               (Demo.start Demo.usual) = (Ok cats, s').
Proof.
  intros w.
  apply (gather_categories_fails_only_in_fetch w "https://tsn.ua/" "tsn.ua" "ul li a"
           (Demo.start Demo.usual) Demo.tsn_index_html
           (get_page_content w "tsn.ua" "https://tsn.ua/" (Demo.start Demo.usual)).2).
  vm_compute. reflexivity.
Defined.
